(** * Quick-Suggestion-Recommendation: the [/api/predict] route

    A shallow embedding of [src/app/api/predict/route.ts]: the dataset
    loader, the one-hour in-memory cache, the matcher [findBestMatch] and
    the two handlers [GET] and [POST], followed by the properties the
    specification states about them.

    Conventions of the embedding.
    - A JavaScript string is a [string], the bytes of its UTF-8 encoding;
      where the code looks at UTF-16 code units (the default order of
      [sort]) the model decodes them; [undefined] is [None].
    - A plain object is the list of its own enumerable properties in the
      order [Object.keys] / [Object.entries] enumerate them.
    - A JavaScript number that the route computes with is a [number]:
      [NaN], [+Infinity] or a finite value, kept as an exact rational.
      The only quotients the route forms are [score / totalFields] with
      [0 <= score <= totalFields]; two such quotients with the same
      divisor differ by at least [1 / totalFields], far more than the
      rounding of a double for every length an array can have, so the
      order of the exact quotients is the order of the doubles.
    - A handler is first a function from the state of the module (the
      [cache] variable and the console) and the environment of the call
      (clock, file system, request) to a response and a new state: the
      call run to its end.  The part on calls that overlap embeds the
      same functions with their [await]s, where other calls may run, and
      shows that a call run to its end without interruption is the
      function of the first embedding. *)

From Stdlib Require Import List String Ascii Bool Arith ZArith QArith Lia.
From Stdlib Require Import DecimalString Sorting.Mergesort Sorting.Permutation Sorting.Sorted.
Import ListNotations.

Set Warnings "-register-all".

Local Open Scope string_scope.
Local Open Scope list_scope.

(** ** Values *)

(** The value [req.json()] resolves to. *)
Inductive json : Type :=
| JNull
| JBool (b : bool)
| JNum (q : Q)
| JStr (s : string)
| JArr (elems : list json)
| JObj (props : list (string * json)).

(** [interface DataRow { [key: string]: string; ... }]. *)
Definition DataRow : Type := list (string * string).

(** [type: 'categorical'] *)
Inductive ColumnType : Type := categorical.

(** [interface Column]. *)
Record Column : Type := mkColumn {
  name : string;
  type : ColumnType;
  options : list string
}.

(** [interface CacheData]. *)
Record CacheData : Type := mkCacheData {
  mlData : list DataRow;
  columnInfo : list Column;
  lastUpdated : Z
}.

(** The column that holds the answer of the service. *)
Definition TIP : string := "Self-care tips that might help you out".

(** [const CACHE_DURATION = 1000 * 60 * 60]. *)
Definition CACHE_DURATION : Z := 1000 * 60 * 60.

(** ** Numbers *)

Inductive number : Type :=
| NaN
| PosInf
| Fin (q : Q).

(** [a / b] for two counts. *)
Definition js_div (a b : nat) : number :=
  match b with
  | O => match a with O => NaN | S _ => PosInf end
  | S _ => Fin (Z.of_nat a # Pos.of_nat b)
  end.

(** [x > y]: false as soon as one side is [NaN]. *)
Definition js_gt (x y : number) : bool :=
  match x, y with
  | NaN, _ | _, NaN => false
  | PosInf, PosInf => false
  | PosInf, Fin _ => true
  | Fin _, PosInf => false
  | Fin p, Fin q => negb (Qle_bool p q)
  end.

(** ** Exceptions *)

Inductive Exn : Type :=
| TypeError (msg : string)
| SyntaxError (msg : string)
| IOError (msg : string)
| Error (msg : string).

Inductive Res (A : Type) : Type :=
| Ok (a : A)
| Throw (e : Exn).
Arguments Ok {A} a.
Arguments Throw {A} e.

Definition res_bind {A B} (r : Res A) (k : A -> Res B) : Res B :=
  match r with
  | Ok a => k a
  | Throw e => Throw e
  end.

(** ** Property access *)

(** [row[key]]; [None] is [undefined]. *)
Fixpoint row_get (row : DataRow) (key : string) : option string :=
  match row with
  | [] => None
  | (k, v) :: rest => if String.eqb k key then Some v else row_get rest key
  end.

(** [key in row]. *)
Definition has_key (row : DataRow) (key : string) : bool :=
  existsb (fun kv => String.eqb (fst kv) key) row.

(** [Object.keys(row)]. *)
Definition Object_keys (row : DataRow) : list string := map fst row.

(** The decimal numeral of an array index. *)
Definition index_key (i : nat) : string :=
  NilEmpty.string_of_uint (Nat.to_uint i).

Fixpoint index_entries {A} (i : nat) (l : list A) : list (string * A) :=
  match l with
  | [] => []
  | x :: rest => (index_key i, x) :: index_entries (S i) rest
  end.

Fixpoint chars (s : string) : list json :=
  match s with
  | EmptyString => []
  | String c rest => JStr (String c EmptyString) :: chars rest
  end.

(** [Object.entries(v)]. *)
Definition Object_entries (v : json) : Res (list (string * json)) :=
  match v with
  | JNull => Throw (TypeError "Cannot convert undefined or null to object")
  | JBool _ | JNum _ => Ok []
  | JStr s => Ok (index_entries 0 (chars s))
  | JArr elems => Ok (index_entries 0 elems)
  | JObj props => Ok props
  end.

(** [row[key] === value] for a value that came out of [req.json()]:
    a string equals only the same string, and [undefined] equals no
    parsed value. *)
Definition strict_eq (cell : option string) (value : json) : bool :=
  match cell, value with
  | Some s, JStr t => String.eqb s t
  | _, _ => false
  end.

(** ** The matcher *)

(** The inner loop of [findBestMatch]: one point per exact match. *)
Definition rowScore (inputEntries : list (string * json)) (row : DataRow) : nat :=
  fold_left
    (fun score kv => if strict_eq (row_get row (fst kv)) (snd kv) then S score else score)
    inputEntries 0%nat.

(** The body of the outer loop, on the pair [(bestMatch, maxScore)]. *)
Definition matchStep (inputEntries : list (string * json)) (totalFields : nat)
    (st : option DataRow * number) (row : DataRow) : option DataRow * number :=
  let score := rowScore inputEntries row in
  let normalizedScore := js_div score totalFields in
  if js_gt normalizedScore (snd st) then (Some row, normalizedScore) else st.

Definition findBestMatch (userInput : json) (mlData : list DataRow)
    : Res (option DataRow) :=
  let bestMatch := hd_error mlData in
  let maxScore := Fin (-1) in
  res_bind (Object_entries userInput) (fun inputEntries =>
  let totalFields := List.length inputEntries in
  Ok (fst (fold_left (matchStep inputEntries totalFields) mlData (bestMatch, maxScore)))).

(** The variant of the specification's wording: the same scan, each row
    scored by its raw count of exact matches, no division. *)
Definition rawStep (inputEntries : list (string * json))
    (st : option DataRow * Z) (row : DataRow) : option DataRow * Z :=
  let score := Z.of_nat (rowScore inputEntries row) in
  if (score >? snd st)%Z then (Some row, score) else st.

Definition findBestMatch_raw (userInput : json) (mlData : list DataRow)
    : Res (option DataRow) :=
  res_bind (Object_entries userInput) (fun inputEntries =>
  Ok (fst (fold_left (rawStep inputEntries) mlData (hd_error mlData, (-1)%Z)))).

(** The number and the fraction of the supplied fields that a row matches
    exactly, as the specification words them. *)
Definition matchCount (inputEntries : list (string * json)) (row : DataRow) : nat :=
  List.length (filter (fun kv => strict_eq (row_get row (fst kv)) (snd kv)) inputEntries).

Definition matchFraction (inputEntries : list (string * json)) (row : DataRow) : Q :=
  Z.of_nat (matchCount inputEntries row) # Pos.of_nat (List.length inputEntries).

(** ** Module state and effects *)

(** What a call does to the outside: a read of the file system, a line on
    the error console. *)
Inductive Event : Type :=
| ReadFile (path : string)
| ConsoleError (label : string) (e : Exn).

(** [let cache: CacheData | null], and the effects performed so far. *)
Record Sys : Type := mkSys {
  cache : option CacheData;
  trace : list Event
}.

(** [let cache: CacheData | null = null] *)
Definition initial : Sys := mkSys None [].

(** What one call finds outside the module: the clock when
    [getCachedData] compares the age of the cache, the clock when
    [loadAndProcessData] stamps its result, the working directory and the
    file system. *)
Record Env : Type := mkEnv {
  now_check : Z;
  now_load : Z;
  cwd : string;
  fs_readFile : string -> Res string
}.

(** [Request]: only [req.json()] is used; it rejects with a
    [SyntaxError] when the body is not JSON. *)
Record Request : Type := mkRequest {
  req_json : Res json
}.

(** The body handed to [NextResponse.json]. *)
Inductive ResponseBody : Type :=
| Failure (error : string)
| Prediction (prediction : option string)
| Columns (columns : list Column).

Definition success (b : ResponseBody) : bool :=
  match b with
  | Failure _ => false
  | Prediction _ | Columns _ => true
  end.

Record Response : Type := mkResponse {
  status : Z;
  body : ResponseBody
}.

(** Computations that read and write the module state and may throw. *)
Definition M (A : Type) : Type := Sys -> Res A * Sys.

Definition ret {A} (a : A) : M A := fun s => (Ok a, s).

Definition throw {A} (e : Exn) : M A := fun s => (Throw e, s).

Definition bind {A B} (m : M A) (k : A -> M B) : M B :=
  fun s =>
    match m s with
    | (Ok a, s') => k a s'
    | (Throw e, s') => (Throw e, s')
    end.

(** [try { m } catch (error) { h error }] *)
Definition try_catch {A} (m : M A) (h : Exn -> M A) : M A :=
  fun s =>
    match m s with
    | (Ok a, s') => (Ok a, s')
    | (Throw e, s') => h e s'
    end.

Definition lift {A} (r : Res A) : M A := fun s => (r, s).

Definition get_cache : M (option CacheData) := fun s => (Ok (cache s), s).

Definition set_cache (c : CacheData) : M unit :=
  fun s => (Ok tt, mkSys (Some c) (trace s)).

Definition emit (ev : Event) : M unit :=
  fun s => (Ok tt, mkSys (cache s) (trace s ++ [ev])).

Declare Scope m_scope.
Delimit Scope m_scope with m.
Notation "x <- c ;; k" := (bind c (fun x => k))
  (at level 61, c at next level, right associativity) : m_scope.
Notation "c ;;; k" := (bind c (fun _ => k))
  (at level 61, right associativity) : m_scope.

(** [await fs.readFile(p, 'utf-8')] *)
Definition readFile (env : Env) (p : string) : M string :=
  (emit (ReadFile p) ;;; lift (fs_readFile env p))%m.

(** [console.error(label, error)] *)
Definition console_error (label : string) (e : Exn) : M unit :=
  emit (ConsoleError label e).

(** [path.join(process.cwd(), 'public', 'data.csv')] *)
Definition dataPath (env : Env) : string := cwd env ++ "/public/data.csv".

(** ** Sets and sorting of strings *)

(** A [Set<string>] as the list of its members in insertion order. *)
Definition Set_add (s : list string) (v : string) : list string :=
  if existsb (String.eqb v) s then s else s ++ [v].

(** The bytes of a string, as numbers. *)
Definition bytes (s : string) : list N := map N_of_ascii (list_ascii_of_string s).

Definition is_continuation (b : N) : bool := ((128 <=? b) && (b <=? 191))%N.

(** The code points that a UTF-8 byte sequence encodes; a byte that
    starts no well-formed sequence reads as U+FFFD. *)
Fixpoint utf8_decode (l : list N) : list N :=
  match l with
  | [] => []
  | b0 :: t0 =>
      if (b0 <? 128)%N then b0 :: utf8_decode t0
      else if ((194 <=? b0) && (b0 <=? 223))%N then
        match t0 with
        | b1 :: t1 =>
            if is_continuation b1
            then ((b0 - 192) * 64 + (b1 - 128))%N :: utf8_decode t1
            else 65533%N :: utf8_decode t0
        | _ => 65533%N :: utf8_decode t0
        end
      else if ((224 <=? b0) && (b0 <=? 239))%N then
        match t0 with
        | b1 :: b2 :: t2 =>
            let cp := ((b0 - 224) * 4096 + (b1 - 128) * 64 + (b2 - 128))%N in
            if is_continuation b1 && is_continuation b2
               && (2048 <=? cp)%N && negb ((55296 <=? cp) && (cp <=? 57343))%N
            then cp :: utf8_decode t2
            else 65533%N :: utf8_decode t0
        | _ => 65533%N :: utf8_decode t0
        end
      else if ((240 <=? b0) && (b0 <=? 244))%N then
        match t0 with
        | b1 :: b2 :: b3 :: t3 =>
            let cp := ((b0 - 240) * 262144 + (b1 - 128) * 4096
                       + (b2 - 128) * 64 + (b3 - 128))%N in
            if is_continuation b1 && is_continuation b2 && is_continuation b3
               && (65536 <=? cp)%N && (cp <=? 1114111)%N
            then cp :: utf8_decode t3
            else 65533%N :: utf8_decode t0
        | _ => 65533%N :: utf8_decode t0
        end
      else 65533%N :: utf8_decode t0
  end.

(** The UTF-16 code units of a code point: itself below U+10000, a
    surrogate pair from there on. *)
Definition utf16_encode (cp : N) : list N :=
  if (cp <? 65536)%N then [cp]
  else [(55296 + (cp - 65536) / 1024)%N; (56320 + (cp - 65536) mod 1024)%N].

(** The UTF-16 code units of a string, which is what JavaScript holds. *)
Definition code_units (s : string) : list N :=
  flat_map utf16_encode (utf8_decode (bytes s)).

(** The comparison of the default [sort]: code unit by code unit, a
    prefix first.  Two strings with the same code units are the same
    JavaScript string; the model then falls back on the bytes, so that
    the order is total on every [string]. *)
Definition js_compare (a b : string) : comparison :=
  match list_compare N.compare (code_units a) (code_units b) with
  | Eq => String.compare a b
  | c => c
  end.

Definition js_leb (a b : string) : bool :=
  match js_compare a b with
  | Gt => false
  | _ => true
  end.

Lemma js_compare_antisym a b : js_compare b a = CompOpp (js_compare a b).
Proof.
  unfold js_compare.
  rewrite (list_compare_antisym N.compare N.compare_eq_iff
             (code_units a) (code_units b) (fun x y => N.compare_antisym x y)).
  destruct (list_compare N.compare (code_units a) (code_units b)); simpl; auto.
  apply String.compare_antisym.
Qed.

Module StringOrder <: Orders.TotalLeBool.
Definition t := string.
Definition leb := js_leb.
Lemma leb_total : forall a b, leb a b = true \/ leb b a = true.
Proof.
  intros a b. unfold leb, js_leb. rewrite (js_compare_antisym a b).
  destruct (js_compare a b); simpl; auto.
Qed.
End StringOrder.

Module StringSort := Sort StringOrder.

(** [Array.prototype.sort()] with the default comparison, on strings. *)
Definition Array_sort (l : list string) : list string := StringSort.sort l.

(** A string is truthy when it is not empty. *)
Definition truthy_string (s : string) : bool :=
  match s with
  | EmptyString => false
  | String _ _ => true
  end.

(** ** The loader *)

(** The loop that fills [uniqueValues] for one column. *)
Definition uniqueValues (mlData : list DataRow) (colname : string) : list string :=
  fold_left
    (fun acc row =>
       match row_get row colname with
       | Some v => if truthy_string v then Set_add acc v else acc
       | None => acc
       end)
    mlData [].

Definition buildColumn (mlData : list DataRow) (colname : string) : Column :=
  {| name := colname;
     type := categorical;
     options := Array_sort (uniqueValues mlData colname) |}.

Definition buildColumnInfo (mlData : list DataRow) : list Column :=
  match mlData with
  | [] => []
  | first :: _ =>
      let headers := filter (fun header => negb (String.eqb header TIP)) (Object_keys first) in
      map (buildColumn mlData) headers
  end.

Section Route.

(** [Papa.parse(csvData, { header: true, skipEmptyLines: true,
    transform: trim }).data]: the parser is a library, taken as given. *)
Variable Papa_parse : string -> list DataRow.

(** The validation [!mlData.length || !(TIP in mlData[0])] is the match on
    the rows: no row, or a first row without the key. *)
Definition loadAndProcessData (env : Env) : M CacheData :=
  (csvData <- readFile env (dataPath env) ;;
   let mlData := Papa_parse csvData in
   match mlData with
   | [] => throw (Error "Invalid data structure in CSV")
   | first :: _ =>
       if negb (has_key first TIP)
       then throw (Error "Invalid data structure in CSV")
       else
         ret {| mlData := mlData;
                columnInfo := buildColumnInfo mlData;
                lastUpdated := now_load env |}
   end)%m.

(** [!cache || Date.now() - cache.lastUpdated > CACHE_DURATION] *)
Definition refreshDue (env : Env) (c : option CacheData) : bool :=
  match c with
  | None => true
  | Some d => (now_check env - lastUpdated d >? CACHE_DURATION)%Z
  end.

Definition getCachedData (env : Env) : M (option CacheData) :=
  (c <- get_cache ;;
   (if refreshDue env c
    then
      try_catch
        (d <- loadAndProcessData env ;; set_cache d)
        (fun error =>
           console_error "Error loading data:" error ;;;
           throw (Error "Failed to load data"))
    else ret tt) ;;;
   get_cache)%m.

(** [const { mlData } = ...] and [const { columnInfo } = ...]: reading a
    property of [null] throws. *)
Definition destructure (c : option CacheData) : M CacheData :=
  match c with
  | Some d => ret d
  | None => throw (TypeError "Cannot destructure property of null")
  end.

(** [typeof v] *)
Definition typeof (v : json) : string :=
  match v with
  | JNull | JArr _ | JObj _ => "object"
  | JBool _ => "boolean"
  | JNum _ => "number"
  | JStr _ => "string"
  end.

(** [!v] is [negb (truthy v)]. *)
Definition truthy (v : json) : bool :=
  match v with
  | JNull => false
  | JBool b => b
  | JNum q => negb (Qeq_bool q 0)
  | JStr s => truthy_string s
  | JArr _ | JObj _ => true
  end.

(** [bestMatch['Self-care tips that might help you out']] *)
Definition tipOf (bestMatch : option DataRow) : Res (option string) :=
  match bestMatch with
  | Some row => Ok (row_get row TIP)
  | None => Throw (TypeError "Cannot read properties of undefined")
  end.

Definition POST (env : Env) (req : Request) : M Response :=
  try_catch
    (c <- getCachedData env ;;
     d <- destructure c ;;
     userInput <- lift (req_json req) ;;
     if negb (truthy userInput) || negb (String.eqb (typeof userInput) "object")
     then ret (mkResponse 400 (Failure "Invalid input format"))
     else
       bestMatch <- lift (findBestMatch userInput (mlData d)) ;;
       prediction <- lift (tipOf bestMatch) ;;
       ret (mkResponse 200 (Prediction prediction)))%m
    (fun error =>
       console_error "Recommendation error:" error ;;;
       ret (mkResponse 500 (Failure "Failed to generate recommendation")))%m.

Definition GET (env : Env) : M Response :=
  try_catch
    (c <- getCachedData env ;;
     d <- destructure c ;;
     ret (mkResponse 200 (Columns (columnInfo d))))%m
    (fun error =>
       console_error "GET error:" error ;;;
       ret (mkResponse 500 (Failure "Failed to load form structure")))%m.

(** ** Sequences of requests *)

Inductive Call : Type :=
| CallGET
| CallPOST (req : Request).

Definition handle (env : Env) (c : Call) : M Response :=
  match c with
  | CallGET => GET env
  | CallPOST req => POST env req
  end.

(** The module state after serving the calls one after the other, none
    started before the one before it has answered. *)
Fixpoint serve (calls : list (Env * Call)) (s : Sys) : list (Res Response) * Sys :=
  match calls with
  | [] => ([], s)
  | (env, c) :: rest =>
      let '(r, s') := handle env c s in
      let '(rs, s'') := serve rest s' in
      (r :: rs, s'')
  end.

(** The states the module can be in: the initial one, and the one any
    call leaves behind. *)
Inductive reachable : Sys -> Prop :=
| reach_initial : reachable initial
| reach_call env c s : reachable s -> reachable (snd (handle env c s)).

(** The number of file reads in a trace. *)
Definition reads (t : list Event) : nat :=
  List.length (filter (fun ev => match ev with ReadFile _ => true | _ => false end) t).

End Route.

(** ** A small dataset to run the definitions on *)

Definition demo_rows : list DataRow :=
  [ [("Mood", "Sad"); ("Sleep", "Low"); (TIP, "Take a walk")];
    [("Mood", "Happy"); ("Sleep", "Low"); (TIP, "Keep going")];
    [("Mood", "Happy"); ("Sleep", ""); (TIP, "Share it")] ].

Definition demo_parse (csv : string) : list DataRow :=
  if String.eqb csv "" then [] else demo_rows.

Definition demo_env (t : Z) : Env :=
  {| now_check := t; now_load := t + 5; cwd := "/app";
     fs_readFile := fun p => if String.eqb p "/app/public/data.csv" then Ok "csv" else Throw (IOError "ENOENT") |}.

(** The state of the normalized scan and the state of the raw scan hold
    the same row, and the same score up to the division. *)
Definition sim (n : nat) (st : option DataRow * number) (st' : option DataRow * Z) : Prop :=
  fst st = fst st' /\
  ((snd st = Fin (-1) /\ snd st' = (-1)%Z) \/
   exists k : nat, snd st = js_div k n /\ snd st' = Z.of_nat k).

(** The cache and the module state that the first call on the small
    dataset leaves, when the clock reads [t] at the check. *)
Definition demo_cache (t : Z) : CacheData :=
  {| mlData := demo_rows;
     columnInfo := buildColumnInfo demo_rows;
     lastUpdated := t + 5 |}.

Definition demo_sys (t : Z) : Sys :=
  mkSys (Some (demo_cache t)) [ReadFile "/app/public/data.csv"].

(** What [loadAndProcessData] returns, as a function of what is on disk. *)
Definition loadResult (parse : string -> list DataRow) (env : Env) : Res CacheData :=
  match fs_readFile env (dataPath env) with
  | Throw e => Throw e
  | Ok csvData =>
      match parse csvData with
      | [] => Throw (Error "Invalid data structure in CSV")
      | first :: rest =>
          if has_key first TIP
          then Ok {| mlData := first :: rest;
                     columnInfo := buildColumnInfo (first :: rest);
                     lastUpdated := now_load env |}
          else Throw (Error "Invalid data structure in CSV")
      end
  end.

(** What every cache entry built by the loader satisfies. *)
Definition cache_valid (d : CacheData) : Prop :=
  exists first rest,
    mlData d = first :: rest /\
    has_key first TIP = true /\
    columnInfo d = buildColumnInfo (mlData d).

Definition sys_valid (s : Sys) : Prop :=
  forall d, cache s = Some d -> cache_valid d.

(** The options of a column are exactly the values found under its name. *)
Definition options_are_column_values (rows : list DataRow) (c : Column) : Prop :=
  forall v, In v (options c) <-> exists row, In row rows /\ row_get row (name c) = Some v.

(** The options of a column are exactly the non-empty values found under
    its name. *)
Definition options_are_nonempty_column_values (rows : list DataRow) (c : Column) : Prop :=
  forall v, In v (options c) <->
            v <> "" /\ exists row, In row rows /\ row_get row (name c) = Some v.

(** The JSON values that are neither an object nor an array. *)
Definition is_primitive (v : json) : bool :=
  match v with
  | JNull | JBool _ | JNum _ | JStr _ => true
  | JArr _ | JObj _ => false
  end.

(** The file of the dataset cannot be read. *)
Definition unreadable (env : Env) : Prop :=
  exists e, fs_readFile env (dataPath env) = Throw e.

(** The file of the dataset is read, with content [csv]. *)
Definition read_as (env : Env) (csv : string) : Prop :=
  fs_readFile env (dataPath env) = Ok csv.

(** The rows the validation of the loader refuses. *)
Definition bad_rows (rows : list DataRow) : Prop :=
  rows = [] \/
  exists first rest, rows = first :: rest /\ has_key first TIP = false.

(** The HTTP status of what a handler resolves to. *)
Definition status_of (r : Res Response) : option Z :=
  match r with
  | Ok resp => Some (status resp)
  | Throw _ => None
  end.

(** The order [Array_sort] sorts by. *)
Definition js_le (a b : string) : Prop := js_leb a b = true.

(** The code units of [a] do not come after those of [b]. *)
Definition code_unit_le (a b : string) : Prop :=
  list_compare N.compare (code_units a) (code_units b) <> Gt.

(** A row holds, under every supplied key, the supplied value, which is
    then a string. *)
Definition agrees (row : DataRow) (fields : list (string * json)) : Prop :=
  forall k v, In (k, v) fields -> exists t, v = JStr t /\ row_get row k = Some t.

(** Two lists of rows hold the same rows, whatever the order and the
    repetitions. *)
Definition same_rows (rows rows' : list DataRow) : Prop :=
  forall r, In r rows <-> In r rows'.

(** ** Calls that overlap

    The handlers are [async]: a call runs until an [await], and other
    calls may run before it resumes.  The functions of the route are
    embedded a second time with their [await]s marked, so that calls can
    be interleaved; run to its end without another call in between, the
    second embedding does what the first does. *)

(** An [async] function in flight: settled, or suspended at an [await].
    Resuming a suspended one in the module state [s] runs it to its next
    [await] or to its end; it is then [next s], and the state
    [effect s]. *)
Inductive Task (A : Type) : Type :=
| Settled (r : Res A)
| Suspended (next : Sys -> Task A) (effect : Sys -> Sys).
Arguments Settled {A} r.
Arguments Suspended {A} next effect.

(** An [async] function about to be called: the call runs it to its first
    [await], or to its end. *)
Definition T (A : Type) : Type := Sys -> Task A * Sys.

(** Code without [await] runs in one piece. *)
Definition atomic {A} (m : M A) : T A :=
  fun s => let '(r, s') := m s in (Settled r, s').

Fixpoint task_bind {A B} (t : Task A) (k : A -> T B) (s : Sys) : Task B * Sys :=
  match t with
  | Settled (Ok a) => k a s
  | Settled (Throw e) => (Settled (Throw e), s)
  | Suspended next effect =>
      (Suspended (fun s' => fst (task_bind (next s') k (effect s')))
                 (fun s' => snd (task_bind (next s') k (effect s'))),
       s)
  end.

Definition tbind {A B} (m : T A) (k : A -> T B) : T B :=
  fun s => let '(t, s') := m s in task_bind t k s'.

Fixpoint task_catch {A} (t : Task A) (h : Exn -> T A) (s : Sys) : Task A * Sys :=
  match t with
  | Settled (Ok a) => (Settled (Ok a), s)
  | Settled (Throw e) => h e s
  | Suspended next effect =>
      (Suspended (fun s' => fst (task_catch (next s') h (effect s')))
                 (fun s' => snd (task_catch (next s') h (effect s'))),
       s)
  end.

(** [try { m } catch (error) { h error }] around code that awaits. *)
Definition tcatch {A} (m : T A) (h : Exn -> T A) : T A :=
  fun s => let '(t, s') := m s in task_catch t h s'.

(** The caller of [await f()] resumes one turn after [f] has settled. *)
Fixpoint tick {A} (t : Task A) : Task A :=
  match t with
  | Settled r => Suspended (fun _ => Settled r) (fun s => s)
  | Suspended next effect => Suspended (fun s => tick (next s)) effect
  end.

(** [await f()] for an [async] function [f] of the route. *)
Definition await {A} (m : T A) : T A :=
  fun s => let '(t, s') := m s in (tick t, s').

(** [await fs.readFile(p, 'utf-8')]: the read is issued at once, and the
    caller resumes when the content, or the failure, arrives. *)
Definition readFile_async (env : Env) (p : string) : T string :=
  fun s => (Suspended (fun _ => Settled (fs_readFile env p)) (fun s' => s'),
            snd (emit (ReadFile p) s)).

(** [await req.json()] *)
Definition json_async (req : Request) : T json :=
  fun s => (Suspended (fun _ => Settled (req_json req)) (fun s' => s'), s).

Declare Scope t_scope.
Delimit Scope t_scope with t.
Notation "x <- c ;; k" := (tbind c (fun x => k))
  (at level 61, c at next level, right associativity) : t_scope.
Notation "c ;;; k" := (tbind c (fun _ => k))
  (at level 61, right associativity) : t_scope.

(** What [loadAndProcessData] does once the file is read. *)
Definition processData (parse : string -> list DataRow) (env : Env)
    (csvData : string) : M CacheData :=
  let mlData := parse csvData in
  match mlData with
  | [] => throw (Error "Invalid data structure in CSV")
  | first :: _ =>
      if negb (has_key first TIP)
      then throw (Error "Invalid data structure in CSV")
      else
        ret {| mlData := mlData;
               columnInfo := buildColumnInfo mlData;
               lastUpdated := now_load env |}
  end.

Definition loadAndProcessData_async (parse : string -> list DataRow) (env : Env)
    : T CacheData :=
  (csvData <- readFile_async env (dataPath env) ;;
   atomic (processData parse env csvData))%t.

Definition getCachedData_async (parse : string -> list DataRow) (env : Env)
    : T (option CacheData) :=
  (c <- atomic get_cache ;;
   (if refreshDue env c
    then
      tcatch
        (d <- await (loadAndProcessData_async parse env) ;; atomic (set_cache d))
        (fun error =>
           atomic (console_error "Error loading data:" error ;;;
                   throw (Error "Failed to load data"))%m)
    else atomic (ret tt)) ;;;
   atomic get_cache)%t.

Definition POST_async (parse : string -> list DataRow) (env : Env) (req : Request)
    : T Response :=
  tcatch
    (c <- await (getCachedData_async parse env) ;;
     d <- atomic (destructure c) ;;
     userInput <- json_async req ;;
     atomic
       (if negb (truthy userInput) || negb (String.eqb (typeof userInput) "object")
        then ret (mkResponse 400 (Failure "Invalid input format"))
        else
          bestMatch <- lift (findBestMatch userInput (mlData d)) ;;
          prediction <- lift (tipOf bestMatch) ;;
          ret (mkResponse 200 (Prediction prediction)))%m)%t
    (fun error =>
       atomic (console_error "Recommendation error:" error ;;;
               ret (mkResponse 500 (Failure "Failed to generate recommendation")))%m).

Definition GET_async (parse : string -> list DataRow) (env : Env) : T Response :=
  tcatch
    (c <- await (getCachedData_async parse env) ;;
     d <- atomic (destructure c) ;;
     atomic (ret (mkResponse 200 (Columns (columnInfo d)))))%t
    (fun error =>
       atomic (console_error "GET error:" error ;;;
               ret (mkResponse 500 (Failure "Failed to load form structure")))%m).

Definition handle_async (parse : string -> list DataRow) (env : Env) (c : Call)
    : T Response :=
  match c with
  | CallGET => GET_async parse env
  | CallPOST req => POST_async parse env req
  end.

(** A call that no other call interrupts: resumed at once, in the state
    it left, until it settles. *)
Fixpoint complete {A} (t : Task A) (s : Sys) : Res A * Sys :=
  match t with
  | Settled r => (r, s)
  | Suspended next effect => complete (next s) (effect s)
  end.

Definition run_alone {A} (m : T A) : M A :=
  fun s => let '(t, s') := m s in complete t s'.

(** Calls that do not overlap: each starts when the one before it has
    answered. *)
Fixpoint in_turn (parse : string -> list DataRow) (calls : list (Env * Call))
    (s : Sys) : list (Res Response) * Sys :=
  match calls with
  | [] => ([], s)
  | (env, c) :: rest =>
      let '(r, s') := run_alone (handle_async parse env c) s in
      let '(rs, s'') := in_turn parse rest s' in
      (r :: rs, s'')
  end.

(** The module with its calls in flight, and what happens next: a new
    call starts, or the call started [i]-th resumes. *)
Record World : Type := mkWorld {
  sys : Sys;
  tasks : list (Task Response)
}.

Inductive Action : Type :=
| Start (env : Env) (c : Call)
| Resume (i : nat).

Fixpoint set_nth {A} (l : list A) (i : nat) (x : A) : list A :=
  match l, i with
  | [], _ => []
  | _ :: rest, O => x :: rest
  | y :: rest, S j => y :: set_nth rest j x
  end.

Definition step (parse : string -> list DataRow) (w : World) (a : Action) : World :=
  match a with
  | Start env c =>
      let '(t, s') := handle_async parse env c (sys w) in
      mkWorld s' (tasks w ++ [t])
  | Resume i =>
      match nth_error (tasks w) i with
      | Some (Suspended next effect) =>
          mkWorld (effect (sys w)) (set_nth (tasks w) i (next (sys w)))
      | _ => w
      end
  end.

Definition schedule (parse : string -> list DataRow) (actions : list Action)
    (w : World) : World :=
  fold_left (step parse) actions w.

(** A call in flight that reads the file at no resumption, whatever the
    other calls have done to the module state in between. *)
Inductive never_reads {A} : Task A -> Prop :=
| never_reads_settled r : never_reads (Settled r)
| never_reads_suspended next effect :
    (forall s, reads (trace (effect s)) = reads (trace s)) ->
    (forall s, never_reads (next s)) ->
    never_reads (Suspended next effect).

(** A call in flight that settles with [r] and, on the way, neither
    reads the file nor assigns the cache, whatever the other calls have
    done to the module state in between. *)
Inductive settles_with {A} (r : Res A) : Task A -> Prop :=
| settles_settled : settles_with r (Settled r)
| settles_suspended next effect :
    (forall s, cache (effect s) = cache s /\
               reads (trace (effect s)) = reads (trace s)) ->
    (forall s, settles_with r (next s)) ->
    settles_with r (Suspended next effect).

(** Code without [await] that reads no file. *)
Definition reads_nothing {A} (m : M A) : Prop :=
  forall s, reads (trace (snd (m s))) = reads (trace s).

(** An [async] function that reads the file [n s] times before its first
    [await] when called in the state [s], and never afterwards. *)
Definition reads_at_call {A} (n : Sys -> nat) (m : T A) : Prop :=
  forall s,
    reads (trace (snd (m s))) = (reads (trace s) + n s)%nat /\
    never_reads (fst (m s)).

(** Two [GET]s on the empty cache, the second started one millisecond
    after the first and before the file of the first has arrived; then
    each resumed in turn until both have answered. *)
Definition two_overlapping_gets : list Action :=
  [Start (demo_env 1000) CallGET; Start (demo_env 1001) CallGET;
   Resume 0; Resume 1; Resume 0; Resume 1; Resume 0; Resume 1].

(** ** The page

    The client component that calls the route: [fetchColumns], run once
    when the page mounts, [onSubmit], and what the component renders.
    The state of the component is the record of its [useState] cells and
    of the values of its form; a handler is a function from the state
    before to the state once the handler has run to its end. *)

(** [type: 'numeric' | 'categorical'] *)
Inductive PageColumnType : Type := PNumeric | PCategorical.

(** [interface Column] of the page, with its optional [options]. *)
Record PageColumn : Type := mkPageColumn {
  pname : string;
  ptype : PageColumnType;
  poptions : option (list string)
}.

Definition DEFAULT_HOURS : list string :=
  ["Less than 1"; "1 - 2"; "2 - 3"; "3 - 4"; "More than 4"].

(** A column of the route as the page reads it from the JSON of the
    answer. *)
Definition column_on_page (c : Column) : PageColumn :=
  mkPageColumn (name c) PCategorical (Some (options c)).

(** [data.success], [data.columns], [data.prediction] and [data.error] for
    the [data] that [response.json()] gives on an answer of the route;
    [None] is [undefined]. *)
Definition data_success (data : ResponseBody) : bool := success data.

Definition data_columns (data : ResponseBody) : option (list PageColumn) :=
  match data with
  | Columns cols => Some (map column_on_page cols)
  | _ => None
  end.

Definition data_prediction (data : ResponseBody) : option string :=
  match data with
  | Prediction p => p
  | _ => None
  end.

Definition data_error (data : ResponseBody) : option string :=
  match data with
  | Failure e => Some e
  | _ => None
  end.

(** The [useState] cells of [Home] and the values of its form. *)
Record PageState : Type := mkPageState {
  columns : list PageColumn;
  loading : bool;
  prediction : option string;
  error : option string;
  formValues : list (string * string)
}.

(** The state the component mounts with. *)
Definition page_initial : PageState := mkPageState [] false None None [].

(** [fetch] followed by [response.json()]: the answer of the route, or a
    rejection when the request or the parsing fails. *)
Definition Network : Type := Call -> Res Response.

(** [o[k] = v] on a plain object. *)
Fixpoint obj_set (o : list (string * string)) (k v : string) : list (string * string) :=
  match o with
  | [] => [(k, v)]
  | (k', v') :: rest =>
      if String.eqb k' k then (k', v) :: rest else (k', v') :: obj_set rest k v
  end.

(** The [defaultValues] that [fetchColumns] builds. *)
Definition defaultValues (cols : list PageColumn) : list (string * string) :=
  fold_left (fun acc column => obj_set acc (pname column) "") cols [].

Definition fetchColumns (net : Network) (st : PageState) : PageState :=
  match net CallGET with
  | Ok response =>
      let data := body response in
      match (if data_success data then data_columns data else None) with
      | Some cols =>
          mkPageState cols (loading st) (prediction st) (error st) (defaultValues cols)
      | None =>
          mkPageState (columns st) (loading st) (prediction st)
                      (Some "Failed to load form structure") (formValues st)
      end
  | Throw _ =>
      mkPageState (columns st) (loading st) (prediction st)
                  (Some "Failed to fetch form structure") (formValues st)
  end.

(** The request that [fetch] sends with [body: JSON.stringify(values)],
    as [req.json()] reads it back on the side of the route. *)
Definition request_of_values (values : list (string * string)) : Request :=
  mkRequest (Ok (JObj (map (fun kv => (fst kv, JStr (snd kv))) values))).

(** [e || fallback] for a string or [undefined]. *)
Definition string_or (e : option string) (fallback : string) : string :=
  match e with
  | Some m => if truthy_string m then m else fallback
  | None => fallback
  end.

Definition onSubmit (net : Network) (values : list (string * string))
    (st : PageState) : PageState :=
  let st1 := mkPageState (columns st) true None None (formValues st) in
  let st2 :=
    match net (CallPOST (request_of_values values)) with
    | Ok response =>
        let data := body response in
        if data_success data
        then mkPageState (columns st1) (loading st1) (data_prediction data)
                         (error st1) (formValues st1)
        else mkPageState (columns st1) (loading st1) (prediction st1)
                         (Some (string_or (data_error data) "Prediction failed"))
                         (formValues st1)
    | Throw _ =>
        mkPageState (columns st1) (loading st1) (prediction st1)
                    (Some "Failed to get prediction") (formValues st1)
    end in
  mkPageState (columns st2) false (prediction st2) (error st2) (formValues st2).

(** A string state cell is truthy when it holds a non-empty string. *)
Definition truthy_cell (c : option string) : bool :=
  match c with
  | Some m => truthy_string m
  | None => false
  end.

(** The options a [Select] lists. *)
Definition selectOptions (column : PageColumn) : list string :=
  match ptype column, poptions column with
  | PCategorical, Some opts => opts
  | _, _ => DEFAULT_HOURS
  end.

(** The [Alert] under the form. *)
Record Alert : Type := mkAlert {
  destructive : bool;
  title : string;
  description : option string
}.

(** What [Home] renders, reduced to what depends on the state: the
    loading card, or the form with one [Select] per column, the submit
    button and, possibly, the alert. *)
Inductive View : Type :=
| LoadingCard
| FormView (selects : list (string * list string)) (submitDisabled : bool)
           (alert : option Alert).

Definition render (st : PageState) : View :=
  if (List.length (columns st) =? 0)%nat
  then LoadingCard
  else
    FormView
      (map (fun column => (pname column, selectOptions column)) (columns st))
      (loading st)
      (if truthy_cell (prediction st) || truthy_cell (error st)
       then Some (mkAlert (truthy_cell (error st))
                          (if truthy_cell (error st)
                           then "Error" else "Recommended Self-Care Tip")
                          (if truthy_cell (error st) then error st else prediction st))
       else None).

(** The route, in the state [s] and with the surroundings [env], as the
    network the page talks to. *)
Definition route_network (parse : string -> list DataRow) (env : Env) (s : Sys)
    : Network :=
  fun c => fst (handle parse env c s).

(** * Properties *)

(** ** The definitions at work on the small dataset *)

Example GET_demo :
  fst (GET demo_parse (demo_env 1000) initial)
  = Ok (mkResponse 200
          (Columns [mkColumn "Mood" categorical ["Happy"; "Sad"];
                    mkColumn "Sleep" categorical ["Low"]])).
Proof. reflexivity. Qed.

Example POST_demo :
  fst (POST demo_parse (demo_env 1000)
         (mkRequest (Ok (JObj [("Mood", JStr "Happy"); ("Sleep", JStr "Low")])))
         initial)
  = Ok (mkResponse 200 (Prediction (Some "Keep going"))).
Proof. reflexivity. Qed.

Example POST_demo_tie :
  fst (POST demo_parse (demo_env 1000)
         (mkRequest (Ok (JObj [("Sleep", JStr "Low")]))) initial)
  = Ok (mkResponse 200 (Prediction (Some "Take a walk"))).
Proof. reflexivity. Qed.

Example zero_by_zero_is_not_greater : js_gt (js_div 0 0) (Fin (-1)) = false.
Proof. reflexivity. Qed.

Example serve_demo :
  reads (trace (snd (serve demo_parse
                       [(demo_env 1000, CallGET);
                        (demo_env 2000, CallGET);
                        (demo_env 3601005, CallGET);
                        (demo_env 3601006, CallGET)]
                       initial)))
  = 2%nat.
Proof. reflexivity. Qed.

(** ** The matcher *)

Lemma rowScore_acc (fields : list (string * json)) (row : DataRow) (acc : nat) :
  fold_left
    (fun score kv => if strict_eq (row_get row (fst kv)) (snd kv) then S score else score)
    fields acc
  = (acc + matchCount fields row)%nat.
Proof.
  unfold matchCount. revert acc.
  induction fields as [|kv fields IH]; intros acc; simpl.
  - lia.
  - rewrite IH. destruct (strict_eq _ _); simpl; lia.
Qed.

Lemma rowScore_matchCount fields row : rowScore fields row = matchCount fields row.
Proof. unfold rowScore. now rewrite rowScore_acc. Qed.

Lemma matchCount_le fields row : (matchCount fields row <= List.length fields)%nat.
Proof. unfold matchCount. apply filter_length_le. Qed.

Lemma js_gt_div (a b n : nat) :
  (0 < n)%nat -> js_gt (js_div a n) (js_div b n) = (b <? a)%nat.
Proof.
  intros Hn. destruct n as [|n]; [lia|]. simpl.
  unfold Qle_bool. simpl Qnum. simpl Qden.
  destruct (Nat.ltb_spec b a) as [H|H].
  - apply negb_true_iff, Z.leb_gt. nia.
  - apply negb_false_iff, Z.leb_le. nia.
Qed.

Lemma js_gt_div_start (a n : nat) :
  (0 < n)%nat -> js_gt (js_div a n) (Fin (-1)) = true.
Proof.
  intros Hn. destruct n as [|n]; [lia|]. simpl.
  unfold Qle_bool. simpl Qnum. simpl Qden.
  apply negb_true_iff, Z.leb_gt. lia.
Qed.

Lemma sim_step fields n st st' row :
  (0 < n)%nat -> sim n st st' ->
  sim n (matchStep fields n st row) (rawStep fields st' row).
Proof.
  intros Hn [Hb Hs]. unfold matchStep, rawStep.
  destruct Hs as [[Hs Hs']|[k [Hs Hs']]]; rewrite Hs, Hs'.
  - rewrite js_gt_div_start by assumption.
    replace (_ >? _)%Z with true by (symmetry; apply Z.gtb_lt; lia).
    split; [reflexivity|]. right. exists (rowScore fields row). split; reflexivity.
  - rewrite js_gt_div by assumption.
    destruct (Nat.ltb_spec k (rowScore fields row)) as [H|H].
    + replace (_ >? _)%Z with true by (symmetry; apply Z.gtb_lt; lia).
      split; [reflexivity|]. right. exists (rowScore fields row). split; reflexivity.
    + replace (_ >? _)%Z with false by (symmetry; rewrite Z.gtb_ltb; apply Z.ltb_ge; lia).
      split; [assumption|]. right. exists k. now rewrite <- Hs, <- Hs'.
Qed.

Lemma sim_fold fields n rows :
  (0 < n)%nat -> forall st st', sim n st st' ->
  sim n (fold_left (matchStep fields n) rows st) (fold_left (rawStep fields) rows st').
Proof.
  intros Hn. induction rows as [|row rows IH]; intros st st' H; simpl.
  - assumption.
  - apply IH, sim_step; assumption.
Qed.

Lemma findBestMatch_as_raw userInput fields mlData :
  Object_entries userInput = Ok fields -> fields <> [] ->
  findBestMatch userInput mlData = findBestMatch_raw userInput mlData.
Proof.
  intros He Hne. unfold findBestMatch, findBestMatch_raw. rewrite He. simpl.
  f_equal.
  refine (proj1 (sim_fold fields (List.length fields) mlData _ _ _ _)).
  - destruct fields; [congruence|simpl; lia].
  - split; [reflexivity|]. left. split; reflexivity.
Qed.

(** The raw scan from any state: either no row beats the score it starts
    with, or it ends on the first row of greatest score. *)
Lemma raw_scan fields rows :
  forall best mx,
    (fold_left (rawStep fields) rows (best, mx) = (best, mx) /\
     forall r, In r rows -> (Z.of_nat (matchCount fields r) <= mx)%Z)
    \/
    (exists i r,
        nth_error rows i = Some r /\
        fold_left (rawStep fields) rows (best, mx)
        = (Some r, Z.of_nat (matchCount fields r)) /\
        (mx < Z.of_nat (matchCount fields r))%Z /\
        (forall r', In r' rows -> (matchCount fields r' <= matchCount fields r)%nat) /\
        (forall j r', (j < i)%nat -> nth_error rows j = Some r' ->
                      (matchCount fields r' < matchCount fields r)%nat)).
Proof.
  induction rows as [|row rows IH]; intros best mx.
  - left. split; [reflexivity|]. intros r [].
  - assert (Hstep : rawStep fields (best, mx) row
                    = if (Z.of_nat (matchCount fields row) >? mx)%Z
                      then (Some row, Z.of_nat (matchCount fields row))
                      else (best, mx))
      by (unfold rawStep; now rewrite rowScore_matchCount).
    simpl fold_left. rewrite Hstep. clear Hstep.
    destruct (Z.gtb_spec (Z.of_nat (matchCount fields row)) mx) as [Hgt|Hle].
    + destruct (IH (Some row) (Z.of_nat (matchCount fields row)))
        as [[Heq Hall]|(i & r & Hi & Heq & Hlt & Hmax & Hfirst)].
      * right. exists 0%nat, row.
        split; [reflexivity|]. split; [assumption|]. split; [assumption|]. split.
        -- intros r' [<-|Hin]; [lia|]. specialize (Hall _ Hin). lia.
        -- intros j r' Hj. lia.
      * right. exists (S i), r.
        split; [assumption|]. split; [assumption|]. split; [lia|]. split.
        -- intros r' [<-|Hin]; [lia|]. now apply Hmax.
        -- intros [|j] r' Hj Hnth; simpl in Hnth.
           ++ injection Hnth as <-. lia.
           ++ apply (Hfirst j); [lia|assumption].
    + destruct (IH best mx)
        as [[Heq Hall]|(i & r & Hi & Heq & Hlt & Hmax & Hfirst)].
      * left. split; [assumption|].
        intros r' [<-|Hin]; [lia|]. now apply Hall.
      * right. exists (S i), r.
        split; [assumption|]. split; [assumption|]. split; [assumption|]. split.
        -- intros r' [<-|Hin]; [lia|]. now apply Hmax.
        -- intros [|j] r' Hj Hnth; simpl in Hnth.
           ++ injection Hnth as <-. lia.
           ++ apply (Hfirst j); [lia|assumption].
Qed.

(** What the scan of [findBestMatch] ends on, for at least one supplied
    field and at least one row. *)
Lemma findBestMatch_scan userInput fields mlData :
  Object_entries userInput = Ok fields -> fields <> [] -> mlData <> [] ->
  exists i best,
    nth_error mlData i = Some best /\
    findBestMatch userInput mlData = Ok (Some best) /\
    (forall r, In r mlData -> (matchCount fields r <= matchCount fields best)%nat) /\
    (forall j r, (j < i)%nat -> nth_error mlData j = Some r ->
                 (matchCount fields r < matchCount fields best)%nat).
Proof.
  intros He Hf Hd.
  rewrite (findBestMatch_as_raw userInput fields mlData He Hf).
  unfold findBestMatch_raw. rewrite He. simpl res_bind.
  destruct (raw_scan fields mlData (hd_error mlData) (-1)%Z)
    as [[_ Hall]|(i & r & Hi & Heq & _ & Hmax & Hfirst)].
  - destruct mlData as [|row rest]; [congruence|].
    specialize (Hall row (or_introl eq_refl)). lia.
  - exists i, r. rewrite Heq. auto.
Qed.

Lemma matchFraction_le fields r r' :
  (matchCount fields r <= matchCount fields r')%nat ->
  (matchFraction fields r <= matchFraction fields r')%Q.
Proof.
  intros H. unfold matchFraction, Qle. simpl. nia.
Qed.

(** C1.  With at least one supplied field and at least one row,
    [findBestMatch] returns a row of the dataset, and no row of the
    dataset matches a larger fraction of the supplied fields, nor a larger
    number of them. *)
Theorem findBestMatch_maximizes userInput fields mlData :
  Object_entries userInput = Ok fields -> fields <> [] -> mlData <> [] ->
  exists best,
    findBestMatch userInput mlData = Ok (Some best) /\
    In best mlData /\
    forall row, In row mlData ->
      (matchFraction fields row <= matchFraction fields best)%Q /\
      ~ (matchCount fields best < matchCount fields row)%nat.
Proof.
  intros He Hf Hd.
  destruct (findBestMatch_scan userInput fields mlData He Hf Hd)
    as (i & best & Hi & Hres & Hmax & _).
  exists best. split; [assumption|]. split.
  - eapply nth_error_In; eassumption.
  - intros row Hin. specialize (Hmax row Hin). split.
    + now apply matchFraction_le.
    + lia.
Qed.

Lemma findBestMatch_maximizes_witness :
  exists best,
    findBestMatch (JObj [("Mood", JStr "Happy"); ("Sleep", JStr "Low")]) demo_rows
    = Ok (Some best) /\
    In best demo_rows /\
    forall row, In row demo_rows ->
      (matchFraction [("Mood", JStr "Happy"); ("Sleep", JStr "Low")] row
       <= matchFraction [("Mood", JStr "Happy"); ("Sleep", JStr "Low")] best)%Q /\
      ~ (matchCount [("Mood", JStr "Happy"); ("Sleep", JStr "Low")] best
         < matchCount [("Mood", JStr "Happy"); ("Sleep", JStr "Low")] row)%nat.
Proof.
  apply (findBestMatch_maximizes
           (JObj [("Mood", JStr "Happy"); ("Sleep", JStr "Low")])
           [("Mood", JStr "Happy"); ("Sleep", JStr "Low")] demo_rows).
  - reflexivity.
  - discriminate.
  - discriminate.
Defined.

(** C7.  With at least one supplied field, [findBestMatch] returns what
    the scan on raw counts returns: dividing every score by the number of
    supplied fields does not change the row selected. *)
Theorem findBestMatch_normalization_irrelevant userInput fields mlData :
  Object_entries userInput = Ok fields -> fields <> [] ->
  findBestMatch userInput mlData = findBestMatch_raw userInput mlData.
Proof.
  intros He Hf. now apply (findBestMatch_as_raw userInput fields).
Qed.

Lemma findBestMatch_normalization_irrelevant_witness :
  findBestMatch (JObj [("Sleep", JStr "Low")]) demo_rows
  = findBestMatch_raw (JObj [("Sleep", JStr "Low")]) demo_rows.
Proof.
  apply (findBestMatch_normalization_irrelevant
           (JObj [("Sleep", JStr "Low")]) [("Sleep", JStr "Low")] demo_rows).
  - reflexivity.
  - discriminate.
Defined.

(** C9.  With at least one supplied field and at least one row, the row
    [findBestMatch] returns stands at an index of the dataset where the
    score is maximal, and every row before that index scores strictly
    less: among the rows of maximal score it is the earliest. *)
Theorem findBestMatch_earliest userInput fields mlData :
  Object_entries userInput = Ok fields -> fields <> [] -> mlData <> [] ->
  exists i best,
    nth_error mlData i = Some best /\
    findBestMatch userInput mlData = Ok (Some best) /\
    (forall j r, nth_error mlData j = Some r ->
                 (matchFraction fields r <= matchFraction fields best)%Q) /\
    (forall j r, nth_error mlData j = Some r ->
                 (matchFraction fields r == matchFraction fields best)%Q ->
                 (i <= j)%nat).
Proof.
  intros He Hf Hd.
  destruct (findBestMatch_scan userInput fields mlData He Hf Hd)
    as (i & best & Hi & Hres & Hmax & Hfirst).
  exists i, best. split; [assumption|]. split; [assumption|]. split.
  - intros j r Hj. apply matchFraction_le, Hmax.
    eapply nth_error_In; eassumption.
  - intros j r Hj Heq.
    destruct (Nat.le_gt_cases i j) as [H|H]; [assumption|].
    specialize (Hfirst j r H Hj).
    unfold matchFraction, Qeq in Heq. simpl in Heq. nia.
Qed.

Lemma findBestMatch_earliest_witness :
  exists i best,
    nth_error demo_rows i = Some best /\
    findBestMatch (JObj [("Sleep", JStr "Low")]) demo_rows = Ok (Some best) /\
    (forall j r, nth_error demo_rows j = Some r ->
                 (matchFraction [("Sleep", JStr "Low")] r
                  <= matchFraction [("Sleep", JStr "Low")] best)%Q) /\
    (forall j r, nth_error demo_rows j = Some r ->
                 (matchFraction [("Sleep", JStr "Low")] r
                  == matchFraction [("Sleep", JStr "Low")] best)%Q ->
                 (i <= j)%nat).
Proof.
  apply (findBestMatch_earliest
           (JObj [("Sleep", JStr "Low")]) [("Sleep", JStr "Low")] demo_rows).
  - reflexivity.
  - discriminate.
  - discriminate.
Defined.

(** ** Running the loader and the cache *)

Lemma loadAndProcessData_run parse env s :
  loadAndProcessData parse env s
  = (loadResult parse env, mkSys (cache s) (trace s ++ [ReadFile (dataPath env)])).
Proof.
  unfold loadAndProcessData, loadResult, readFile, bind, emit, lift, throw, ret.
  simpl.
  destruct (fs_readFile env (dataPath env)) as [csv|e]; [|reflexivity].
  destruct (parse csv) as [|first rest]; [reflexivity|].
  destruct (has_key first TIP); reflexivity.
Qed.

Lemma getCachedData_run parse env s :
  getCachedData parse env s
  = if refreshDue env (cache s)
    then match loadResult parse env with
         | Ok d =>
             (Ok (Some d), mkSys (Some d) (trace s ++ [ReadFile (dataPath env)]))
         | Throw e =>
             (Throw (Error "Failed to load data"),
              mkSys (cache s)
                    ((trace s ++ [ReadFile (dataPath env)])
                       ++ [ConsoleError "Error loading data:" e]))
         end
    else (Ok (cache s), s).
Proof.
  unfold getCachedData, bind, get_cache, try_catch. simpl.
  destruct (refreshDue env (cache s)).
  - rewrite loadAndProcessData_run.
    destruct (loadResult parse env) as [d|e]; reflexivity.
  - destruct s; reflexivity.
Qed.

Lemma loadResult_valid parse env d :
  loadResult parse env = Ok d -> cache_valid d.
Proof.
  unfold loadResult.
  destruct (fs_readFile env (dataPath env)) as [csv|e]; [|discriminate].
  destruct (parse csv) as [|first rest]; [discriminate|].
  destruct (has_key first TIP) eqn:Hk; [|discriminate].
  intros [= <-]. exists first, rest. auto.
Qed.

Lemma loadResult_stamp parse env d :
  loadResult parse env = Ok d -> lastUpdated d = now_load env.
Proof.
  unfold loadResult.
  destruct (fs_readFile env (dataPath env)) as [csv|e]; [|discriminate].
  destruct (parse csv) as [|first rest]; [discriminate|].
  destruct (has_key first TIP); [|discriminate].
  now intros [= <-].
Qed.

(** A refresh is due exactly when there is no cache or the cache is more
    than an hour old. *)
Lemma refreshDue_iff env c :
  refreshDue env c = true <->
  c = None \/ exists d, c = Some d /\ (now_check env - lastUpdated d > 3600000)%Z.
Proof.
  unfold refreshDue. destruct c as [d|].
  - unfold CACHE_DURATION. rewrite Z.gtb_lt. split.
    + intros H. right. exists d. split; [reflexivity|lia].
    + intros [H|(d' & [= <-] & H)]; [discriminate|lia].
  - split; auto.
Qed.

(** [getCachedData] never resolves to [null], and what it resolves to is
    the cache it leaves. *)
Lemma getCachedData_result parse env s c s1 :
  getCachedData parse env s = (Ok c, s1) ->
  exists d, c = Some d /\ cache s1 = Some d /\
            (refreshDue env (cache s) = false -> cache s = Some d /\ s1 = s) /\
            (refreshDue env (cache s) = true -> loadResult parse env = Ok d).
Proof.
  rewrite getCachedData_run.
  destruct (refreshDue env (cache s)) eqn:Hdue.
  - destruct (loadResult parse env) as [d|e]; [|discriminate].
    intros [= <- <-]. exists d. repeat split; auto; discriminate.
  - intros [= <- <-]. destruct (cache s) as [d|] eqn:Hc; [|discriminate].
    exists d. repeat split; auto; discriminate.
Qed.

Lemma getCachedData_cache parse env s :
  cache (snd (getCachedData parse env s)) = cache s \/
  exists d, cache (snd (getCachedData parse env s)) = Some d /\
            loadResult parse env = Ok d.
Proof.
  rewrite getCachedData_run.
  destruct (refreshDue env (cache s)); [|left; reflexivity].
  destruct (loadResult parse env) as [d|e]; [right; exists d; auto|left; reflexivity].
Qed.

Lemma getCachedData_reads parse env s :
  reads (trace (snd (getCachedData parse env s)))
  = (reads (trace s) + if refreshDue env (cache s) then 1 else 0)%nat.
Proof.
  rewrite getCachedData_run. unfold reads.
  destruct (refreshDue env (cache s)); [|simpl; lia].
  destruct (loadResult parse env) as [d|e]; simpl;
    rewrite ?filter_app, ?length_app; simpl; lia.
Qed.

(** ** Running the handlers *)

Lemma GET_loaded parse env s d s1 :
  getCachedData parse env s = (Ok (Some d), s1) ->
  GET parse env s = (Ok (mkResponse 200 (Columns (columnInfo d))), s1).
Proof.
  intros H. unfold GET, try_catch, bind. rewrite H. reflexivity.
Qed.

Lemma GET_failed parse env s e s1 :
  getCachedData parse env s = (Throw e, s1) ->
  GET parse env s
  = (Ok (mkResponse 500 (Failure "Failed to load form structure")),
     mkSys (cache s1) (trace s1 ++ [ConsoleError "GET error:" e])).
Proof.
  intros H. unfold GET, try_catch, bind. rewrite H. reflexivity.
Qed.

Lemma POST_failed parse env req s e s1 :
  getCachedData parse env s = (Throw e, s1) ->
  POST parse env req s
  = (Ok (mkResponse 500 (Failure "Failed to generate recommendation")),
     mkSys (cache s1) (trace s1 ++ [ConsoleError "Recommendation error:" e])).
Proof.
  intros H. unfold POST, try_catch, bind. rewrite H. reflexivity.
Qed.

Lemma POST_bad_json parse env req s d s1 e :
  getCachedData parse env s = (Ok (Some d), s1) ->
  req_json req = Throw e ->
  POST parse env req s
  = (Ok (mkResponse 500 (Failure "Failed to generate recommendation")),
     mkSys (cache s1) (trace s1 ++ [ConsoleError "Recommendation error:" e])).
Proof.
  intros H Hj. unfold POST, try_catch, bind. rewrite H. simpl.
  unfold lift. rewrite Hj. reflexivity.
Qed.

Lemma POST_invalid parse env req s d s1 v :
  getCachedData parse env s = (Ok (Some d), s1) ->
  req_json req = Ok v ->
  negb (truthy v) || negb (String.eqb (typeof v) "object") = true ->
  POST parse env req s = (Ok (mkResponse 400 (Failure "Invalid input format")), s1).
Proof.
  intros H Hj Hv. unfold POST, try_catch, bind. rewrite H. simpl.
  unfold lift. rewrite Hj, Hv. reflexivity.
Qed.

Lemma POST_matched parse env req s d s1 v best :
  getCachedData parse env s = (Ok (Some d), s1) ->
  req_json req = Ok v ->
  negb (truthy v) || negb (String.eqb (typeof v) "object") = false ->
  findBestMatch v (mlData d) = Ok (Some best) ->
  POST parse env req s
  = (Ok (mkResponse 200 (Prediction (row_get best TIP))), s1).
Proof.
  intros H Hj Hv Hb. unfold POST, try_catch, bind. rewrite H. simpl.
  unfold lift. rewrite Hj, Hv, Hb. reflexivity.
Qed.

(** A handler touches the cache and the disk only through
    [getCachedData]. *)
Lemma handle_state parse env c s :
  cache (snd (handle parse env c s)) = cache (snd (getCachedData parse env s)) /\
  reads (trace (snd (handle parse env c s)))
  = reads (trace (snd (getCachedData parse env s))).
Proof.
  assert (Hr : forall t l e, reads (t ++ [ConsoleError l e]) = reads t).
  { intros t l e. unfold reads. rewrite filter_app, length_app. simpl. lia. }
  destruct c as [|req]; simpl handle.
  - unfold GET, try_catch, bind, destructure.
    destruct (getCachedData parse env s) as [[[d|]|e] s1]; simpl; auto.
  - unfold POST, try_catch, bind, destructure, lift.
    destruct (getCachedData parse env s) as [[[d|]|e] s1]; simpl; auto.
    destruct (req_json req) as [v|e]; simpl; auto.
    destruct (negb (truthy v) || negb (String.eqb (typeof v) "object")); simpl; auto.
    destruct (findBestMatch v (mlData d)) as [[best|]|e]; simpl; auto.
Qed.

Lemma handle_total parse env c s :
  exists resp, fst (handle parse env c s) = Ok resp.
Proof.
  destruct c as [|req]; simpl handle.
  - unfold GET, try_catch, bind, destructure.
    destruct (getCachedData parse env s) as [[[d|]|e] s1]; simpl; eauto.
  - unfold POST, try_catch, bind, destructure, lift.
    destruct (getCachedData parse env s) as [[[d|]|e] s1]; simpl; eauto.
    destruct (req_json req) as [v|e]; simpl; eauto.
    destruct (negb (truthy v) || negb (String.eqb (typeof v) "object")); simpl; eauto.
    destruct (findBestMatch v (mlData d)) as [[best|]|e]; simpl; eauto.
Qed.

Lemma reachable_valid parse s : reachable parse s -> sys_valid s.
Proof.
  induction 1 as [|env c s Hs IH].
  - intros d [=].
  - intros d Hd.
    rewrite (proj1 (handle_state parse env c s)) in Hd.
    destruct (getCachedData_cache parse env s) as [Heq|(d' & Heq & Hl)].
    + apply IH. congruence.
    + rewrite Heq in Hd. injection Hd as <-.
      eapply loadResult_valid; eassumption.
Qed.

(** The condition of the input validation of [POST]. *)
Lemma invalid_input_iff v :
  negb (truthy v) || negb (String.eqb (typeof v) "object") = true <->
  v = JNull \/ typeof v <> "object".
Proof.
  destruct v; simpl; split; intros H; auto;
    try (right; discriminate);
    try (destruct H as [H|H]; [discriminate|congruence]).
  all: try (rewrite orb_true_r; reflexivity).
Qed.

(** ** The matcher inside [POST] *)

Lemma object_entries_ok v :
  v <> JNull -> typeof v = "object" -> exists fields, Object_entries v = Ok fields.
Proof.
  destruct v; simpl; intros Hn Ht; try congruence; try discriminate; eauto.
Qed.

Lemma matchStep_keeps fields n rows :
  forall b m,
    exists b' m',
      fold_left (matchStep fields n) rows (Some b, m) = (Some b', m') /\
      (b' = b \/ In b' rows).
Proof.
  induction rows as [|row rows IH]; intros b m; simpl.
  - eauto.
  - unfold matchStep at 2. simpl snd.
    destruct (js_gt _ m).
    + destruct (IH row (js_div (rowScore fields row) n)) as (b' & m' & -> & [->|Hin]);
        eauto 6.
    + destruct (IH b m) as (b' & m' & -> & [->|Hin]); eauto 6.
Qed.

Lemma findBestMatch_some v fields first rest :
  Object_entries v = Ok fields ->
  exists best,
    findBestMatch v (first :: rest) = Ok (Some best) /\ In best (first :: rest).
Proof.
  intros He. unfold findBestMatch, res_bind. rewrite He. cbv beta iota zeta.
  change (hd_error (first :: rest)) with (Some first).
  destruct (matchStep_keeps fields (List.length fields) (first :: rest) first (Fin (-1)))
    as (b & m & -> & Hb).
  exists b. split; [reflexivity|]. destruct Hb as [->|Hin]; [now left|assumption].
Qed.

Lemma findBestMatch_no_fields v first rest :
  Object_entries v = Ok [] -> findBestMatch v (first :: rest) = Ok (Some first).
Proof.
  intros He. unfold findBestMatch, res_bind. rewrite He. cbv beta iota zeta.
  change (hd_error (first :: rest)) with (Some first).
  assert (H : forall rows st, fold_left (matchStep [] 0) rows st = st).
  { induction rows as [|row rows IH]; intros st; simpl; [reflexivity|].
    rewrite IH. reflexivity. }
  simpl List.length. now rewrite H.
Qed.

(** C2.  From a state the module can be in, when [getCachedData] resolves
    to the dataset [d] and the body parses to an object, [POST] answers
    200 with [success: true] and, as [prediction], the tip column of the
    row that [findBestMatch] selects in [d], which is the cached dataset. *)
Theorem POST_returns_tip_of_best_match parse env req s d s1 v :
  reachable parse s ->
  getCachedData parse env s = (Ok (Some d), s1) ->
  req_json req = Ok v ->
  v <> JNull -> typeof v = "object" ->
  exists best resp,
    findBestMatch v (mlData d) = Ok (Some best) /\
    In best (mlData d) /\
    cache s1 = Some d /\
    POST parse env req s = (Ok resp, s1) /\
    status resp = 200%Z /\
    success (body resp) = true /\
    body resp = Prediction (row_get best TIP).
Proof.
  intros Hreach Hget Hj Hn Ht.
  destruct (getCachedData_result parse env s _ s1 Hget) as (d' & [= <-] & Hc & Hfresh & Hdue).
  assert (Hvalid : cache_valid d).
  { destruct (refreshDue env (cache s)) eqn:E.
    - eapply loadResult_valid. now apply Hdue.
    - apply (reachable_valid parse s Hreach). now apply Hfresh. }
  destruct Hvalid as (first & rest & Hrows & _ & _).
  destruct (object_entries_ok v Hn Ht) as (fields & He).
  destruct (findBestMatch_some v fields first rest He) as (best & Hb & Hin).
  rewrite <- Hrows in Hb, Hin.
  exists best, (mkResponse 200 (Prediction (row_get best TIP))).
  repeat split; try assumption.
  apply (POST_matched parse env req s d s1 v best); try assumption.
  destruct (negb (truthy v) || negb (String.eqb (typeof v) "object")) eqn:E;
    [|reflexivity].
  apply invalid_input_iff in E. destruct E; congruence.
Qed.

Lemma POST_returns_tip_of_best_match_witness :
  exists best resp,
    findBestMatch (JObj [("Mood", JStr "Happy")]) (mlData (demo_cache 1000))
    = Ok (Some best) /\
    In best (mlData (demo_cache 1000)) /\
    cache (demo_sys 1000) = Some (demo_cache 1000) /\
    POST demo_parse (demo_env 1000)
         (mkRequest (Ok (JObj [("Mood", JStr "Happy")]))) initial
    = (Ok resp, demo_sys 1000) /\
    status resp = 200%Z /\
    success (body resp) = true /\
    body resp = Prediction (row_get best TIP).
Proof.
  apply (POST_returns_tip_of_best_match demo_parse (demo_env 1000)
           (mkRequest (Ok (JObj [("Mood", JStr "Happy")]))) initial
           (demo_cache 1000) (demo_sys 1000) (JObj [("Mood", JStr "Happy")])).
  - apply reach_initial.
  - reflexivity.
  - reflexivity.
  - discriminate.
  - reflexivity.
Defined.

(** C8.  With at least one row and no supplied field, [findBestMatch]
    returns the first row; and from a state the module can be in, when
    [getCachedData] resolves to [d], [POST] of an object without fields
    answers 200 with [success: true] and the tip of the first row of [d],
    which that row does have. *)
Theorem POST_without_fields_returns_first_tip :
  (forall v first rest,
      Object_entries v = Ok [] ->
      findBestMatch v (first :: rest) = Ok (Some first)) /\
  (forall parse env req s d s1 v,
      reachable parse s ->
      getCachedData parse env s = (Ok (Some d), s1) ->
      req_json req = Ok v ->
      v <> JNull -> typeof v = "object" ->
      Object_entries v = Ok [] ->
      exists first rest tip,
        mlData d = first :: rest /\
        findBestMatch v (mlData d) = Ok (Some first) /\
        row_get first TIP = Some tip /\
        POST parse env req s = (Ok (mkResponse 200 (Prediction (Some tip))), s1) /\
        success (Prediction (Some tip)) = true).
Proof.
  split; [exact findBestMatch_no_fields|].
  intros parse env req s d s1 v Hreach Hget Hj Hn Ht He.
  destruct (getCachedData_result parse env s _ s1 Hget) as (d' & [= <-] & Hc & Hfresh & Hdue).
  assert (Hvalid : cache_valid d).
  { destruct (refreshDue env (cache s)) eqn:E.
    - eapply loadResult_valid. now apply Hdue.
    - apply (reachable_valid parse s Hreach). now apply Hfresh. }
  destruct Hvalid as (first & rest & Hrows & Hkey & _).
  assert (Htip : exists tip, row_get first TIP = Some tip).
  { clear - Hkey. unfold has_key in Hkey.
    induction first as [|[k x] first IH]; simpl in *; [discriminate|].
    destruct (String.eqb k TIP); [eauto|]. now apply IH. }
  destruct Htip as (tip & Htip).
  exists first, rest, tip.
  assert (Hb : findBestMatch v (mlData d) = Ok (Some first))
    by (rewrite Hrows; now apply findBestMatch_no_fields).
  split; [assumption|]. split; [assumption|]. split; [assumption|].
  split; [|reflexivity].
  rewrite <- Htip.
  apply (POST_matched parse env req s d s1 v first); try assumption.
  destruct (negb (truthy v) || negb (String.eqb (typeof v) "object")) eqn:E;
    [|reflexivity].
  apply invalid_input_iff in E. destruct E; congruence.
Qed.

Lemma POST_without_fields_returns_first_tip_witness :
  exists first rest tip,
    mlData (demo_cache 1000) = first :: rest /\
    findBestMatch (JObj []) (mlData (demo_cache 1000)) = Ok (Some first) /\
    row_get first TIP = Some tip /\
    POST demo_parse (demo_env 1000) (mkRequest (Ok (JObj []))) initial
    = (Ok (mkResponse 200 (Prediction (Some tip))), demo_sys 1000) /\
    success (Prediction (Some tip)) = true.
Proof.
  apply (proj2 POST_without_fields_returns_first_tip demo_parse (demo_env 1000)
           (mkRequest (Ok (JObj []))) initial
           (demo_cache 1000) (demo_sys 1000) (JObj [])).
  - apply reach_initial.
  - reflexivity.
  - reflexivity.
  - discriminate.
  - reflexivity.
  - reflexivity.
Defined.

(** C10, as the code has it.  When [getCachedData] resolves and the body
    parses to [null] or to a value whose [typeof] is not ['object'], that
    is a string, a number or a boolean, [POST] answers 400 with
    [success: false] and ['Invalid input format'], whatever the dataset
    holds, an empty one included: the matcher has no part in the answer.
    When the body is not JSON, [POST] answers 500 with
    ['Failed to generate recommendation']. *)
Theorem POST_rejects_non_object parse env req s :
  (forall v d s1,
      getCachedData parse env s = (Ok (Some d), s1) ->
      req_json req = Ok v ->
      v = JNull \/ typeof v <> "object" ->
      POST parse env req s
      = (Ok (mkResponse 400 (Failure "Invalid input format")), s1) /\
      success (Failure "Invalid input format") = false) /\
  (forall v, (v = JNull \/ typeof v <> "object") <-> is_primitive v = true) /\
  (forall e,
      req_json req = Throw e ->
      exists s2,
        POST parse env req s
        = (Ok (mkResponse 500 (Failure "Failed to generate recommendation")), s2)).
Proof.
  split; [|split].
  - intros v d s1 Hget Hj Hv. split; [|reflexivity].
    apply (POST_invalid parse env req s d s1 v); try assumption.
    now apply invalid_input_iff.
  - intros v. destruct v; simpl; split; intros H; auto;
      try discriminate; try (right; discriminate);
      destruct H as [H|H]; congruence.
  - intros e Hj.
    destruct (getCachedData parse env s) as [[[d|]|e'] s1] eqn:Hget.
    + eexists. now apply (POST_bad_json parse env req s d s1 e).
    + eexists. unfold POST, try_catch, bind. rewrite Hget. reflexivity.
    + eexists. now apply (POST_failed parse env req s e' s1).
Qed.

Lemma POST_rejects_non_object_witness :
  POST demo_parse (demo_env 1000) (mkRequest (Ok (JStr "Happy"))) initial
  = (Ok (mkResponse 400 (Failure "Invalid input format")), demo_sys 1000) /\
  success (Failure "Invalid input format") = false.
Proof.
  apply (proj1 (POST_rejects_non_object demo_parse (demo_env 1000)
                  (mkRequest (Ok (JStr "Happy"))) initial)
           (JStr "Happy") (demo_cache 1000) (demo_sys 1000)).
  - reflexivity.
  - reflexivity.
  - right. discriminate.
Defined.

(** Counterexample to C10 as the specification words it: the body
    [["Happy"]] parses to an array, which is no JSON object; the dataset
    loads; and [POST] answers 200 with the tip of the first row, not 400. *)
Lemma POST_array_counterexample :
  (forall props, JArr [JStr "Happy"] <> JObj props) /\
  getCachedData demo_parse (demo_env 1000) initial
  = (Ok (Some (demo_cache 1000)), demo_sys 1000) /\
  POST demo_parse (demo_env 1000) (mkRequest (Ok (JArr [JStr "Happy"]))) initial
  = (Ok (mkResponse 200 (Prediction (Some "Take a walk"))), demo_sys 1000) /\
  POST demo_parse (demo_env 1000) (mkRequest (Ok (JArr [JStr "Happy"]))) initial
  <> (Ok (mkResponse 400 (Failure "Invalid input format")), demo_sys 1000).
Proof.
  split; [discriminate|]. split; [reflexivity|]. split; [reflexivity|].
  discriminate.
Qed.

(** ** The cache *)

Lemma handle_in_window parse env c s d :
  cache s = Some d ->
  (now_check env - lastUpdated d <= 3600000)%Z ->
  getCachedData parse env s = (Ok (Some d), s) /\
  cache (snd (handle parse env c s)) = Some d /\
  reads (trace (snd (handle parse env c s))) = reads (trace s) /\
  (c = CallGET ->
   fst (handle parse env c s) = Ok (mkResponse 200 (Columns (columnInfo d)))).
Proof.
  intros Hc Hw.
  assert (Hdue : refreshDue env (cache s) = false).
  { rewrite Hc. unfold refreshDue, CACHE_DURATION.
    rewrite Z.gtb_ltb. apply Z.ltb_ge. lia. }
  assert (Hget : getCachedData parse env s = (Ok (Some d), s)).
  { rewrite getCachedData_run, Hdue, Hc. reflexivity. }
  destruct (handle_state parse env c s) as [H1 H2].
  rewrite Hget in H1, H2. simpl in H1, H2.
  split; [assumption|]. split; [congruence|]. split; [assumption|].
  intros ->. simpl handle. now rewrite (GET_loaded parse env s d s Hget).
Qed.

Lemma serve_in_window parse calls :
  forall s d,
    cache s = Some d ->
    (forall env c, In (env, c) calls -> (now_check env - lastUpdated d <= 3600000)%Z) ->
    cache (snd (serve parse calls s)) = Some d /\
    reads (trace (snd (serve parse calls s))) = reads (trace s) /\
    (forall i env,
        nth_error calls i = Some (env, CallGET) ->
        nth_error (fst (serve parse calls s)) i
        = Some (Ok (mkResponse 200 (Columns (columnInfo d))))).
Proof.
  induction calls as [|[env c] calls IH]; intros s d Hc Hw.
  - simpl. split; [assumption|]. split; [reflexivity|]. intros [|i] env; discriminate.
  - destruct (handle_in_window parse env c s d Hc (Hw env c (or_introl eq_refl)))
      as (_ & Hc' & Hr' & Hresp).
    simpl serve.
    destruct (handle parse env c s) as [r s'] eqn:Hh. simpl in Hc', Hr', Hresp.
    destruct (IH s' d Hc' (fun e k H => Hw e k (or_intror H))) as (IHc & IHr & IHg).
    destruct (serve parse calls s') as [rs s''] eqn:Hs. simpl in *.
    split; [assumption|]. split; [congruence|].
    intros [|i] env' Hnth; simpl in *.
    + injection Hnth as <- ->. now rewrite Hresp.
    + now apply (IHg i env').
Qed.

(** ** Failure of the loader *)

(** C5.  When a refresh is due and [loadAndProcessData] throws, [GET] and
    [POST] both answer 500 with [success: false], and the [cache] variable
    holds afterwards what it held before. *)
Theorem load_failure_answers_500 parse env req s e s0 :
  refreshDue env (cache s) = true ->
  loadAndProcessData parse env s = (Throw e, s0) ->
  (exists s1,
      GET parse env s
      = (Ok (mkResponse 500 (Failure "Failed to load form structure")), s1) /\
      success (Failure "Failed to load form structure") = false /\
      cache s1 = cache s) /\
  (exists s2,
      POST parse env req s
      = (Ok (mkResponse 500 (Failure "Failed to generate recommendation")), s2) /\
      success (Failure "Failed to generate recommendation") = false /\
      cache s2 = cache s).
Proof.
  intros Hdue Hload.
  rewrite loadAndProcessData_run in Hload. injection Hload as Hres _.
  pose proof (getCachedData_run parse env s) as Hget.
  rewrite Hdue, Hres in Hget.
  split; eexists.
  - rewrite (GET_failed parse env s _ _ Hget). repeat split.
  - rewrite (POST_failed parse env req s _ _ Hget). repeat split.
Qed.

Lemma load_failure_answers_500_witness :
  (exists s1,
      GET demo_parse (mkEnv 1000 1005 "/srv" (fun _ => Throw (IOError "ENOENT"))) initial
      = (Ok (mkResponse 500 (Failure "Failed to load form structure")), s1) /\
      success (Failure "Failed to load form structure") = false /\
      cache s1 = cache initial) /\
  (exists s2,
      POST demo_parse (mkEnv 1000 1005 "/srv" (fun _ => Throw (IOError "ENOENT")))
           (mkRequest (Ok (JObj []))) initial
      = (Ok (mkResponse 500 (Failure "Failed to generate recommendation")), s2) /\
      success (Failure "Failed to generate recommendation") = false /\
      cache s2 = cache initial).
Proof.
  apply (load_failure_answers_500 demo_parse
           (mkEnv 1000 1005 "/srv" (fun _ => Throw (IOError "ENOENT")))
           (mkRequest (Ok (JObj []))) initial
           (IOError "ENOENT")
           (mkSys None [ReadFile "/srv/public/data.csv"])).
  - reflexivity.
  - reflexivity.
Defined.

(** C6, as the code has it.  [loadAndProcessData] throws exactly when the
    file cannot be read, or the parser returns no row or a first row
    without the tip column.  In every other case it returns an entry that
    holds the parsed rows, and a call for which a refresh is due stores
    that entry in the cache; in the failing cases such a call is answered
    500 by [GET] and by [POST]. *)
Theorem load_fails_iff parse env req s :
  ((exists e, fst (loadAndProcessData parse env s) = Throw e) <->
   (unreadable env \/ exists csv, read_as env csv /\ bad_rows (parse csv))) /\
  (~ (unreadable env \/ exists csv, read_as env csv /\ bad_rows (parse csv)) ->
   exists csv d,
     read_as env csv /\
     fst (loadAndProcessData parse env s) = Ok d /\
     mlData d = parse csv /\
     (refreshDue env (cache s) = true ->
      cache (snd (getCachedData parse env s)) = Some d)) /\
  ((exists e, fst (loadAndProcessData parse env s) = Throw e) ->
   refreshDue env (cache s) = true ->
   status_of (fst (GET parse env s)) = Some 500%Z /\
   status_of (fst (POST parse env req s)) = Some 500%Z).
Proof.
  rewrite loadAndProcessData_run. simpl fst.
  unfold unreadable, read_as, bad_rows.
  split; [|split].
  - unfold loadResult.
    destruct (fs_readFile env (dataPath env)) as [csv|e0].
    + destruct (parse csv) as [|first rest] eqn:Hp.
      * split; [|eauto]. intros _. right. exists csv. rewrite Hp. auto.
      * destruct (has_key first TIP) eqn:Hk.
        -- split.
           ++ intros (e & [=]).
           ++ intros [(e & [=])|(csv' & [= <-] & Hbad)].
              rewrite Hp in Hbad.
              destruct Hbad as [[=]|(f & r & [= <- <-] & Hf)]. congruence.
        -- split; [|eauto]. intros _. right. exists csv. rewrite Hp. eauto 6.
    + split; eauto.
  - intros Hgood. unfold loadResult.
    destruct (fs_readFile env (dataPath env)) as [csv|e0] eqn:Hfile;
      [|exfalso; eauto].
    destruct (parse csv) as [|first rest] eqn:Hp.
    { exfalso. apply Hgood. right. exists csv. rewrite Hp. auto. }
    destruct (has_key first TIP) eqn:Hk.
    2:{ exfalso. apply Hgood. right. exists csv. rewrite Hp. eauto 6. }
    exists csv. eexists. split; [reflexivity|]. split; [reflexivity|].
    split; [simpl; now rewrite Hp|].
    intros Hdue. rewrite getCachedData_run, Hdue. unfold loadResult.
    rewrite Hfile, Hp, Hk. reflexivity.
  - intros (e & He) Hdue.
    pose proof (getCachedData_run parse env s) as Hget.
    rewrite Hdue, He in Hget.
    rewrite (GET_failed parse env s _ _ Hget), (POST_failed parse env req s _ _ Hget).
    split; reflexivity.
Qed.

Lemma load_fails_iff_witness :
  exists csv d,
    read_as (demo_env 1000) csv /\
    fst (loadAndProcessData demo_parse (demo_env 1000) initial) = Ok d /\
    mlData d = demo_parse csv /\
    (refreshDue (demo_env 1000) (cache initial) = true ->
     cache (snd (getCachedData demo_parse (demo_env 1000) initial)) = Some d).
Proof.
  apply (proj1 (proj2 (load_fails_iff demo_parse (demo_env 1000)
                         (mkRequest (Ok (JObj []))) initial))).
  unfold unreadable, read_as, bad_rows.
  intros [(e & H)|(csv & H & Hbad)].
  - discriminate H.
  - vm_compute in H. injection H as <-.
    destruct Hbad as [H|(f & r & H & Hk)].
    + discriminate H.
    + vm_compute in H. injection H as <- <-. discriminate Hk.
Defined.

(** Counterexample to C6 as the specification words it: when the file is
    missing, [loadAndProcessData] throws although no parsed CSV lacks its
    rows or its tip column. *)
Lemma load_fails_counterexample :
  (exists e,
      fst (loadAndProcessData demo_parse
             (mkEnv 1000 1005 "/srv" (fun _ => Throw (IOError "ENOENT"))) initial)
      = Throw e) /\
  ~ (exists csv,
        read_as (mkEnv 1000 1005 "/srv" (fun _ => Throw (IOError "ENOENT"))) csv /\
        bad_rows (demo_parse csv)).
Proof.
  split.
  - exists (IOError "ENOENT"). reflexivity.
  - intros (csv & H & _). discriminate H.
Qed.

(** ** The schema *)

Lemma truthy_string_iff v : truthy_string v = true <-> v <> "".
Proof.
  destruct v; simpl; split; intros H; congruence.
Qed.

Lemma Set_add_In s x v : In v (Set_add s x) <-> In v s \/ v = x.
Proof.
  unfold Set_add. destruct (existsb (String.eqb x) s) eqn:E.
  - split; [auto|]. intros [H| ->]; [assumption|].
    apply existsb_exists in E. destruct E as (y & Hy & Heq).
    apply String.eqb_eq in Heq. now subst.
  - rewrite in_app_iff. simpl. intuition congruence.
Qed.

Lemma Set_add_NoDup s x : NoDup s -> NoDup (Set_add s x).
Proof.
  intros Hs. unfold Set_add. destruct (existsb (String.eqb x) s) eqn:E; [assumption|].
  apply NoDup_app; [assumption|repeat constructor; auto|].
  intros y Hy [Heq|[]]. subst y.
  assert (existsb (String.eqb x) s = true); [|congruence].
  apply existsb_exists. exists x. split; [assumption|apply String.eqb_refl].
Qed.

Lemma uniqueValues_acc rows col :
  forall acc,
    let f := fun acc row =>
               match row_get row col with
               | Some v => if truthy_string v then Set_add acc v else acc
               | None => acc
               end in
    (NoDup acc -> NoDup (fold_left f rows acc)) /\
    (forall v, In v (fold_left f rows acc) <->
               In v acc \/
               (v <> "" /\ exists row, In row rows /\ row_get row col = Some v)).
Proof.
  induction rows as [|row rows IH]; intros acc f; simpl.
  - split; [auto|]. intros v. split; [auto|].
    intros [H|(_ & r & [] & _)]. assumption.
  - destruct (IH (f acc row)) as [IHn IHi]. fold f in IHn, IHi. split.
    + intros Hn. apply IHn. unfold f.
      destruct (row_get row col) as [x|]; [|assumption].
      destruct (truthy_string x); [now apply Set_add_NoDup|assumption].
    + intros v. rewrite IHi. unfold f at 1.
      destruct (row_get row col) as [x|] eqn:Hx.
      * destruct (truthy_string x) eqn:Ht.
        -- rewrite Set_add_In. apply truthy_string_iff in Ht. split.
           ++ intros [[H| ->]|(Hv & r & Hr & Hg)]; eauto 8.
           ++ intros [H|(Hv & r & [<-|Hr] & Hg)]; eauto 8.
              left. right. congruence.
        -- split.
           ++ intros [H|(Hv & r & Hr & Hg)]; eauto 8.
           ++ intros [H|(Hv & r & [<-|Hr] & Hg)]; eauto 8.
              exfalso. rewrite Hx in Hg. injection Hg as ->.
              apply truthy_string_iff in Hv. congruence.
      * split.
        -- intros [H|(Hv & r & Hr & Hg)]; eauto 8.
        -- intros [H|(Hv & r & [<-|Hr] & Hg)]; eauto 8. congruence.
Qed.

Lemma buildColumn_spec rows col :
  name (buildColumn rows col) = col /\
  type (buildColumn rows col) = categorical /\
  NoDup (options (buildColumn rows col)) /\
  Sorted js_le (options (buildColumn rows col)) /\
  options_are_nonempty_column_values rows (buildColumn rows col).
Proof.
  destruct (uniqueValues_acc rows col []) as [Hn Hi].
  pose proof (StringSort.Permuted_sort (uniqueValues rows col)) as Hp.
  split; [reflexivity|]. split; [reflexivity|]. split; [|split].
  - simpl. unfold Array_sort. eapply Permutation_NoDup; [exact Hp|].
    apply Hn. constructor.
  - simpl. unfold Array_sort. apply StringSort.Sorted_sort.
  - intros v. simpl. unfold Array_sort. split.
    + intros H. apply (Permutation_in _ (Permutation_sym Hp)) in H.
      apply Hi in H. destruct H as [[]|H]. exact H.
    + intros H. apply (Permutation_in _ Hp). apply Hi. now right.
Qed.

(** C3, as the code has it.  From a state the module can be in, when
    [getCachedData] resolves to the dataset [d], just loaded or still
    cached, [GET] answers 200 with [success: true] and the schema of [d]:
    the names of its columns are the keys of the first row, in their
    order, without the tip column; every column is ['categorical']; and
    the options of a column are the values found under its name in some
    row, the empty string left out, each once. *)
Theorem GET_returns_schema parse env s d s1 :
  reachable parse s ->
  getCachedData parse env s = (Ok (Some d), s1) ->
  exists first rest cols,
    GET parse env s = (Ok (mkResponse 200 (Columns cols)), s1) /\
    success (Columns cols) = true /\
    cache s1 = Some d /\
    mlData d = first :: rest /\
    map name cols
    = filter (fun header => negb (String.eqb header TIP)) (Object_keys first) /\
    forall c, In c cols ->
      type c = categorical /\
      NoDup (options c) /\
      options_are_nonempty_column_values (mlData d) c.
Proof.
  intros Hreach Hc.
  destruct (getCachedData_result parse env s _ s1 Hc)
    as (d' & [= <-] & Hcache & Hfresh & Hdue).
  assert (Hvalid : cache_valid d).
  { destruct (refreshDue env (cache s)) eqn:E.
    - eapply loadResult_valid. now apply Hdue.
    - apply (reachable_valid parse s Hreach). now apply Hfresh. }
  destruct Hvalid as (first & rest & Hrows & _ & Hcols).
  exists first, rest, (columnInfo d).
  split; [now apply GET_loaded|]. split; [reflexivity|].
  split; [assumption|]. split; [assumption|].
  rewrite Hcols, Hrows. simpl buildColumnInfo. rewrite <- Hrows. split.
  - rewrite map_map. simpl. apply map_id.
  - intros c Hin. apply in_map_iff in Hin. destruct Hin as (col & <- & _).
    destruct (buildColumn_spec (mlData d) col) as (_ & Ht & Hn & _ & Hv). auto.
Qed.

Lemma GET_returns_schema_witness :
  exists first rest cols,
    GET demo_parse (demo_env 1000) initial
    = (Ok (mkResponse 200 (Columns cols)), demo_sys 1000) /\
    success (Columns cols) = true /\
    cache (demo_sys 1000) = Some (demo_cache 1000) /\
    mlData (demo_cache 1000) = first :: rest /\
    map name cols
    = filter (fun header => negb (String.eqb header TIP)) (Object_keys first) /\
    forall c, In c cols ->
      type c = categorical /\
      NoDup (options c) /\
      options_are_nonempty_column_values (mlData (demo_cache 1000)) c.
Proof.
  apply (GET_returns_schema demo_parse (demo_env 1000) initial
           (demo_cache 1000) (demo_sys 1000)).
  - apply reach_initial.
  - reflexivity.
Defined.

(** Counterexample to C3 as the specification words it: on the small
    dataset the column [Sleep] holds the empty string in the third row,
    and the options that [GET] returns for it do not. *)
Lemma GET_options_counterexample :
  exists cols s1 c,
    GET demo_parse (demo_env 1000) initial
    = (Ok (mkResponse 200 (Columns cols)), s1) /\
    In c cols /\
    ~ options_are_column_values demo_rows c.
Proof.
  exists (columnInfo (demo_cache 1000)), (demo_sys 1000),
         (mkColumn "Sleep" categorical ["Low"]).
  split; [reflexivity|]. split; [right; left; reflexivity|].
  intros H.
  assert (Hin : In "" (options (mkColumn "Sleep" categorical ["Low"]))).
  { apply H. exists [("Mood", "Happy"); ("Sleep", ""); (TIP, "Share it")].
    split; [right; right; left; reflexivity|reflexivity]. }
  simpl in Hin. destruct Hin as [Hin|[]]. discriminate.
Qed.

(** * Further properties of the route *)

(** ** The matcher on any input *)

Lemma matchCount_zero_iff fields row :
  matchCount fields row = 0%nat <->
  forall k v, In (k, v) fields -> strict_eq (row_get row k) v = false.
Proof.
  unfold matchCount. induction fields as [|[k v] fields IH]; simpl.
  - split; [intros _ k v []|reflexivity].
  - destruct (strict_eq (row_get row k) v) eqn:E; simpl.
    + split; [discriminate|]. intros H. specialize (H k v (or_introl eq_refl)). congruence.
    + rewrite IH. split.
      * intros H k' v' [[= <- <-]|Hin]; [assumption|now apply H].
      * intros H k' v' Hin. apply H. now right.
Qed.

Lemma matchCount_full_iff fields row :
  matchCount fields row = List.length fields <-> agrees row fields.
Proof.
  unfold matchCount, agrees. induction fields as [|[k v] fields IH]; simpl.
  - split; [intros _ k v []|reflexivity].
  - pose proof (filter_length_le
                  (fun kv => strict_eq (row_get row (fst kv)) (snd kv)) fields) as Hle.
    destruct (strict_eq (row_get row k) v) eqn:E; simpl.
    + split.
      * intros H k' v' [[= <- <-]|Hin].
        -- unfold strict_eq in E. destruct (row_get row k) as [t|]; [|discriminate].
           destruct v; try discriminate. apply String.eqb_eq in E. subst. eauto.
        -- apply IH; [lia|assumption].
      * intros H. f_equal. apply IH. intros k' v' Hin. apply H. now right.
    + split; [lia|].
      intros H. destruct (H k v (or_introl eq_refl)) as (t & -> & Hg).
      rewrite Hg in E. simpl in E. rewrite String.eqb_refl in E. discriminate.
Qed.

(** X1.  Whatever object or array is supplied, fields or none, what
    [findBestMatch] returns is a row of the dataset, and it returns
    [undefined] exactly when the dataset has no row. *)
Theorem findBestMatch_returns_member userInput fields mlData :
  Object_entries userInput = Ok fields ->
  (findBestMatch userInput mlData = Ok None <-> mlData = []) /\
  (forall best, findBestMatch userInput mlData = Ok (Some best) -> In best mlData).
Proof.
  intros He. destruct mlData as [|first rest].
  - unfold findBestMatch, res_bind. rewrite He. simpl. split; [tauto|discriminate].
  - destruct (findBestMatch_some userInput fields first rest He) as (b & Hb & Hin).
    rewrite Hb. split.
    + split; discriminate.
    + now intros best [= <-].
Qed.

Lemma findBestMatch_returns_member_witness :
  (findBestMatch (JArr [JNum 1]) demo_rows = Ok None <-> demo_rows = []) /\
  (forall best, findBestMatch (JArr [JNum 1]) demo_rows = Ok (Some best) ->
                In best demo_rows).
Proof.
  apply (findBestMatch_returns_member (JArr [JNum 1]) [("0", JNum 1)] demo_rows).
  reflexivity.
Defined.

(** X2.  When some row of the dataset agrees with every supplied field,
    the row [findBestMatch] returns agrees with every supplied field
    too. *)
Theorem findBestMatch_finds_full_agreement userInput fields mlData row :
  Object_entries userInput = Ok fields -> fields <> [] ->
  In row mlData -> agrees row fields ->
  exists best,
    findBestMatch userInput mlData = Ok (Some best) /\
    In best mlData /\
    agrees best fields.
Proof.
  intros He Hf Hin Hag.
  assert (Hd : mlData <> []) by (intros ->; destruct Hin).
  destruct (findBestMatch_scan userInput fields mlData He Hf Hd)
    as (i & best & Hi & Hres & Hmax & _).
  exists best. split; [assumption|]. split; [eapply nth_error_In; eassumption|].
  apply matchCount_full_iff.
  apply matchCount_full_iff in Hag.
  specialize (Hmax row Hin). pose proof (matchCount_le fields best). lia.
Qed.

Lemma findBestMatch_finds_full_agreement_witness :
  exists best,
    findBestMatch (JObj [("Mood", JStr "Happy"); ("Sleep", JStr "")]) demo_rows
    = Ok (Some best) /\
    In best demo_rows /\
    agrees best [("Mood", JStr "Happy"); ("Sleep", JStr "")].
Proof.
  apply (findBestMatch_finds_full_agreement
           (JObj [("Mood", JStr "Happy"); ("Sleep", JStr "")])
           [("Mood", JStr "Happy"); ("Sleep", JStr "")] demo_rows
           [("Mood", "Happy"); ("Sleep", ""); (TIP, "Share it")]).
  - reflexivity.
  - discriminate.
  - right. right. left. reflexivity.
  - intros k v [[= <- <-]|[[= <- <-]|[]]]; eexists; split; reflexivity.
Defined.

(** X3.  When no row holds, under the key of a supplied field, the string
    that field supplies, [findBestMatch] returns the first row; values
    that are not strings (numbers, booleans, [null], arrays, objects)
    match nothing, so an input made of such values gets the first row. *)
Theorem findBestMatch_without_any_match userInput fields first rest :
  Object_entries userInput = Ok fields ->
  (forall row k t, In row (first :: rest) -> In (k, JStr t) fields ->
                   row_get row k <> Some t) ->
  findBestMatch userInput (first :: rest) = Ok (Some first).
Proof.
  intros He Hno.
  destruct fields as [|kv fields'] eqn:Hfields.
  { now apply findBestMatch_no_fields. }
  rewrite <- Hfields in *.
  assert (Hf : fields <> []) by (rewrite Hfields; discriminate).
  assert (Hzero : forall row, In row (first :: rest) -> matchCount fields row = 0%nat).
  { intros row Hin. apply matchCount_zero_iff. intros k v Hkv.
    unfold strict_eq. destruct (row_get row k) as [t|] eqn:Hg; [|reflexivity].
    destruct v; try reflexivity.
    apply String.eqb_neq. intros <-. exact (Hno row k t Hin Hkv Hg). }
  destruct (findBestMatch_scan userInput fields (first :: rest) He Hf)
    as (i & best & Hi & Hres & _ & Hfirst); [discriminate|].
  destruct i as [|i].
  - simpl in Hi. injection Hi as <-. assumption.
  - specialize (Hfirst 0%nat first (Nat.lt_0_succ i) eq_refl).
    rewrite (Hzero first (or_introl eq_refl)) in Hfirst.
    rewrite (Hzero best (nth_error_In _ _ Hi)) in Hfirst. lia.
Qed.

Lemma findBestMatch_without_any_match_witness :
  findBestMatch (JObj [("Mood", JNum 3); ("Age", JStr "Happy")])
                ([("Mood", "Sad"); ("Sleep", "Low"); (TIP, "Take a walk")]
                   :: [[("Mood", "Happy"); ("Sleep", "Low"); (TIP, "Keep going")]])
  = Ok (Some [("Mood", "Sad"); ("Sleep", "Low"); (TIP, "Take a walk")]).
Proof.
  apply (findBestMatch_without_any_match
           (JObj [("Mood", JNum 3); ("Age", JStr "Happy")])
           [("Mood", JNum 3); ("Age", JStr "Happy")]).
  - reflexivity.
  - intros row k t [<-|[<-|[]]] [[=]|[[= <- <-]|[]]]; discriminate.
Defined.

Lemma matchCount_permutation fields fields' row :
  Permutation fields fields' -> matchCount fields row = matchCount fields' row.
Proof.
  unfold matchCount. induction 1 as [|kv l l' _ IH|kv kv' l|l l' l'' _ IH1 _ IH2]; simpl.
  - reflexivity.
  - destruct (strict_eq _ _); simpl; now rewrite IH.
  - destruct (strict_eq (row_get row (fst kv)) _), (strict_eq (row_get row (fst kv')) _);
      reflexivity.
  - now rewrite IH1.
Qed.

(** X4.  The order in which the fields are supplied does not matter:
    two inputs whose entries are a rearrangement of one another get the
    same row. *)
Theorem findBestMatch_field_order userInput userInput' fields fields' mlData :
  Object_entries userInput = Ok fields ->
  Object_entries userInput' = Ok fields' ->
  Permutation fields fields' ->
  findBestMatch userInput mlData = findBestMatch userInput' mlData.
Proof.
  intros He He' Hp. unfold findBestMatch, res_bind. rewrite He, He'.
  cbv beta iota zeta. f_equal. f_equal.
  rewrite (Permutation_length Hp).
  assert (Hstep : forall st row,
             matchStep fields (List.length fields') st row
             = matchStep fields' (List.length fields') st row).
  { intros st row. unfold matchStep. rewrite !rowScore_matchCount.
    now rewrite (matchCount_permutation fields fields' row Hp). }
  generalize (hd_error mlData, Fin (-1)).
  induction mlData as [|row rows IH]; intros st; simpl; [reflexivity|].
  rewrite Hstep. apply IH.
Qed.

Lemma findBestMatch_field_order_witness :
  findBestMatch (JObj [("Mood", JStr "Happy"); ("Sleep", JStr "Low")]) demo_rows
  = findBestMatch (JObj [("Sleep", JStr "Low"); ("Mood", JStr "Happy")]) demo_rows.
Proof.
  apply (findBestMatch_field_order
           (JObj [("Mood", JStr "Happy"); ("Sleep", JStr "Low")])
           (JObj [("Sleep", JStr "Low"); ("Mood", JStr "Happy")])
           [("Mood", JStr "Happy"); ("Sleep", JStr "Low")]
           [("Sleep", JStr "Low"); ("Mood", JStr "Happy")] demo_rows).
  - reflexivity.
  - reflexivity.
  - apply perm_swap.
Defined.

(** ** What the handlers answer *)

Lemma served_cache_valid parse env s d s1 :
  reachable parse s ->
  getCachedData parse env s = (Ok (Some d), s1) ->
  cache_valid d.
Proof.
  intros Hreach Hget.
  destruct (getCachedData_result parse env s _ s1 Hget) as (d' & [= <-] & _ & Hfresh & Hdue).
  destruct (refreshDue env (cache s)) eqn:E.
  - eapply loadResult_valid. now apply Hdue.
  - apply (reachable_valid parse s Hreach). now apply Hfresh.
Qed.

(** X5.  [GET] never throws and has two answers only: 200 with the schema
    of the entry that the cache then holds, or 500 with
    ['Failed to load form structure'], and this only when a refresh was
    due, in which case the cache is left as it was. *)
Theorem GET_answer parse env s :
  exists resp s',
    GET parse env s = (Ok resp, s') /\
    ((exists d, cache s' = Some d /\
                resp = mkResponse 200 (Columns (columnInfo d))) \/
     (resp = mkResponse 500 (Failure "Failed to load form structure") /\
      cache s' = cache s /\
      refreshDue env (cache s) = true)).
Proof.
  destruct (getCachedData parse env s) as [[c|e] s0] eqn:Hget.
  - destruct (getCachedData_result parse env s c s0 Hget) as (d & -> & Hc & _).
    exists (mkResponse 200 (Columns (columnInfo d))), s0.
    split; [now apply GET_loaded|]. left. eauto.
  - eexists. eexists. split; [now apply (GET_failed parse env s e s0)|]. right.
    rewrite getCachedData_run in Hget.
    destruct (refreshDue env (cache s)); [|discriminate].
    destruct (loadResult parse env); [discriminate|].
    injection Hget as _ <-. auto.
Qed.

(** X6.  From a state the module can be in, [POST] never throws and its
    answer is decided by two things: 500 with
    ['Failed to generate recommendation'] when the dataset does not load
    or the body is not JSON; otherwise 400 with ['Invalid input format']
    when the body is [null], a boolean, a number or a string; otherwise,
    for an object or an array, 200 with a prediction.  The matcher and the
    reading of the tip never send it to the catch block. *)
Theorem POST_answer parse env req s :
  reachable parse s ->
  exists resp s',
    POST parse env req s = (Ok resp, s') /\
    match fst (getCachedData parse env s), req_json req with
    | Ok _, Ok (JObj _) | Ok _, Ok (JArr _) =>
        exists p, resp = mkResponse 200 (Prediction p)
    | Ok _, Ok _ => resp = mkResponse 400 (Failure "Invalid input format")
    | _, _ => resp = mkResponse 500 (Failure "Failed to generate recommendation")
    end.
Proof.
  intros Hreach.
  destruct (getCachedData parse env s) as [[c|e] s0] eqn:Hget; simpl fst.
  2:{ eexists. eexists. split; [now apply (POST_failed parse env req s e s0)|].
      reflexivity. }
  destruct (getCachedData_result parse env s c s0 Hget) as (d & -> & _).
  destruct (req_json req) as [v|e] eqn:Hj.
  2:{ eexists. eexists. split; [now apply (POST_bad_json parse env req s d s0 e)|].
      reflexivity. }
  destruct (served_cache_valid parse env s d s0 Hreach Hget)
    as (first & rest & Hrows & _ & _).
  assert (Hobj : forall fields,
             Object_entries v = Ok fields ->
             negb (truthy v) || negb (String.eqb (typeof v) "object") = false ->
             exists resp s',
               POST parse env req s = (Ok resp, s') /\
               exists p, resp = mkResponse 200 (Prediction p)).
  { intros fields He Hv.
    destruct (findBestMatch_some v fields first rest He) as (best & Hb & _).
    rewrite <- Hrows in Hb.
    eexists. eexists. split; [now apply (POST_matched parse env req s d s0 v best)|].
    eauto. }
  destruct v; try (eapply Hobj; reflexivity);
    (eexists; eexists; split;
     [apply (POST_invalid parse env req s d s0 _ Hget Hj); apply invalid_input_iff;
      first [now left | right; discriminate]
     |reflexivity]).
Qed.

Lemma POST_answer_witness :
  exists resp s',
    POST demo_parse (demo_env 1000) (mkRequest (Ok (JBool true))) initial
    = (Ok resp, s') /\
    resp = mkResponse 400 (Failure "Invalid input format").
Proof.
  apply (POST_answer demo_parse (demo_env 1000) (mkRequest (Ok (JBool true))) initial).
  apply reach_initial.
Defined.

(** X7.  In every state the module can be in, a cached entry has a first
    row, that row has a tip, the cached schema is the one computed from
    the cached rows, and no column of the schema is the tip column. *)
Theorem cached_entry_invariant parse s d :
  reachable parse s ->
  cache s = Some d ->
  exists first rest tip,
    mlData d = first :: rest /\
    row_get first TIP = Some tip /\
    columnInfo d = buildColumnInfo (mlData d) /\
    ~ In TIP (map name (columnInfo d)).
Proof.
  intros Hreach Hc.
  destruct (reachable_valid parse s Hreach d Hc) as (first & rest & Hrows & Hkey & Hcols).
  assert (Htip : exists tip, row_get first TIP = Some tip).
  { clear - Hkey. unfold has_key in Hkey.
    induction first as [|[k x] first IH]; simpl in *; [discriminate|].
    destruct (String.eqb k TIP); [eauto|]. now apply IH. }
  destruct Htip as (tip & Htip).
  exists first, rest, tip.
  split; [assumption|]. split; [assumption|]. split; [assumption|].
  rewrite Hcols, Hrows. simpl buildColumnInfo. rewrite map_map. simpl. rewrite map_id.
  intros Hin. apply filter_In in Hin. destruct Hin as [_ Hne].
  rewrite String.eqb_refl in Hne. discriminate.
Qed.

Lemma cached_entry_invariant_witness :
  exists first rest tip,
    mlData (demo_cache 1000) = first :: rest /\
    row_get first TIP = Some tip /\
    columnInfo (demo_cache 1000) = buildColumnInfo (mlData (demo_cache 1000)) /\
    ~ In TIP (map name (columnInfo (demo_cache 1000))).
Proof.
  apply (cached_entry_invariant demo_parse
           (snd (handle demo_parse (demo_env 1000) CallGET initial))
           (demo_cache 1000)).
  - apply reach_call. apply reach_initial.
  - reflexivity.
Defined.

(** X8.  What a call leaves in the cache, and whether it reads the file,
    does not depend on the request: [POST], whatever its body, a body
    that is not JSON included, leaves the cache that [GET] leaves. *)
Theorem cache_independent_of_request parse env req s :
  cache (snd (POST parse env req s)) = cache (snd (GET parse env s)) /\
  reads (trace (snd (POST parse env req s))) = reads (trace (snd (GET parse env s))).
Proof.
  destruct (handle_state parse env (CallPOST req) s) as [Hc Hr].
  destruct (handle_state parse env CallGET s) as [Hc' Hr'].
  simpl handle in *. split; congruence.
Qed.

(** X9.  Inside the window of a cached entry the answers depend on that
    entry and on the request only: not on the time of the call, not on
    the file system, not on what was served before. *)
Theorem answers_inside_window parse env1 env2 s1 s2 d c :
  cache s1 = Some d -> cache s2 = Some d ->
  (now_check env1 - lastUpdated d <= 3600000)%Z ->
  (now_check env2 - lastUpdated d <= 3600000)%Z ->
  fst (handle parse env1 c s1) = fst (handle parse env2 c s2).
Proof.
  intros Hc1 Hc2 Hw1 Hw2.
  destruct (handle_in_window parse env1 c s1 d Hc1 Hw1) as (Hg1 & _).
  destruct (handle_in_window parse env2 c s2 d Hc2 Hw2) as (Hg2 & _).
  destruct c as [|req]; simpl handle.
  - now rewrite (GET_loaded parse env1 s1 d s1 Hg1), (GET_loaded parse env2 s2 d s2 Hg2).
  - unfold POST, try_catch, bind, destructure, lift. rewrite Hg1, Hg2. simpl.
    destruct (req_json req) as [v|e]; simpl; [|reflexivity].
    destruct (negb (truthy v) || negb (String.eqb (typeof v) "object")); simpl;
      [reflexivity|].
    destruct (findBestMatch v (mlData d)) as [[best|]|e]; reflexivity.
Qed.

Lemma answers_inside_window_witness :
  fst (handle demo_parse (demo_env 2000)
         (CallPOST (mkRequest (Ok (JObj [("Mood", JStr "Happy")])))) (demo_sys 1000))
  = fst (handle demo_parse
           (mkEnv 3601005 3601010 "/gone" (fun _ => Throw (IOError "ENOENT")))
           (CallPOST (mkRequest (Ok (JObj [("Mood", JStr "Happy")]))))
           (mkSys (Some (demo_cache 1000)) [])).
Proof.
  apply (answers_inside_window demo_parse (demo_env 2000)
           (mkEnv 3601005 3601010 "/gone" (fun _ => Throw (IOError "ENOENT")))
           (demo_sys 1000) (mkSys (Some (demo_cache 1000)) []) (demo_cache 1000)).
  - reflexivity.
  - reflexivity.
  - simpl. lia.
  - simpl. lia.
Defined.

(** X10.  A failure is not cached.  After a call whose refresh failed, a
    later call, made when the clock has not gone back, refreshes again;
    and if the file then loads, [GET] answers 200 with the schema of what
    it loaded and the cache holds it. *)
Theorem failure_is_not_cached parse env1 c1 env2 s e :
  refreshDue env1 (cache s) = true ->
  fst (loadAndProcessData parse env1 s) = Throw e ->
  (now_check env1 <= now_check env2)%Z ->
  refreshDue env2 (cache (snd (handle parse env1 c1 s))) = true /\
  forall d,
    fst (loadAndProcessData parse env2 (snd (handle parse env1 c1 s))) = Ok d ->
    exists s2,
      GET parse env2 (snd (handle parse env1 c1 s))
      = (Ok (mkResponse 200 (Columns (columnInfo d))), s2) /\
      cache s2 = Some d.
Proof.
  intros Hdue Hload Hclock.
  rewrite loadAndProcessData_run in Hload. simpl in Hload.
  assert (Hc : cache (snd (handle parse env1 c1 s)) = cache s).
  { rewrite (proj1 (handle_state parse env1 c1 s)).
    rewrite getCachedData_run, Hdue, Hload. reflexivity. }
  assert (Hdue2 : refreshDue env2 (cache (snd (handle parse env1 c1 s))) = true).
  { rewrite Hc. unfold refreshDue in *. destruct (cache s) as [d0|]; [|reflexivity].
    apply Z.gtb_lt. apply Z.gtb_lt in Hdue. lia. }
  split; [assumption|].
  intros d Hload2. rewrite loadAndProcessData_run in Hload2. simpl in Hload2.
  eexists. split.
  - apply GET_loaded. rewrite getCachedData_run, Hdue2, Hload2. reflexivity.
  - reflexivity.
Qed.

Lemma failure_is_not_cached_witness :
  refreshDue (demo_env 2000)
    (cache (snd (handle demo_parse
                   (mkEnv 1000 1005 "/srv" (fun _ => Throw (IOError "ENOENT")))
                   CallGET initial))) = true /\
  forall d,
    fst (loadAndProcessData demo_parse (demo_env 2000)
           (snd (handle demo_parse
                   (mkEnv 1000 1005 "/srv" (fun _ => Throw (IOError "ENOENT")))
                   CallGET initial))) = Ok d ->
    exists s2,
      GET demo_parse (demo_env 2000)
          (snd (handle demo_parse
                  (mkEnv 1000 1005 "/srv" (fun _ => Throw (IOError "ENOENT")))
                  CallGET initial))
      = (Ok (mkResponse 200 (Columns (columnInfo d))), s2) /\
      cache s2 = Some d.
Proof.
  apply (failure_is_not_cached demo_parse
           (mkEnv 1000 1005 "/srv" (fun _ => Throw (IOError "ENOENT")))
           CallGET (demo_env 2000) initial (IOError "ENOENT")).
  - reflexivity.
  - reflexivity.
  - simpl. lia.
Defined.

(** ** The schema and the order of the rows *)

Lemma string_leb_trans a b c :
  String.leb a b = true -> String.leb b c = true -> String.leb a c = true.
Proof.
  unfold String.leb. revert b c.
  induction a as [|x a IH]; intros b c Hab Hbc.
  - destruct c; reflexivity.
  - destruct b as [|y b]; [discriminate Hab|].
    destruct c as [|z c]; [discriminate Hbc|].
    simpl in *. unfold Ascii.compare in *.
    destruct (N.compare_spec (N_of_ascii x) (N_of_ascii y)) as [Hxy|Hxy|Hxy];
      destruct (N.compare_spec (N_of_ascii y) (N_of_ascii z)) as [Hyz|Hyz|Hyz];
      destruct (N.compare_spec (N_of_ascii x) (N_of_ascii z)) as [Hxz|Hxz|Hxz];
      try reflexivity; try discriminate; try lia.
    now apply (IH b c).
Qed.

Lemma N_compare_trans x y z c :
  N.compare x y = c -> N.compare y z = c -> N.compare x z = c.
Proof.
  destruct c; intros Hxy Hyz.
  - apply N.compare_eq_iff in Hxy, Hyz. apply N.compare_eq_iff. congruence.
  - apply N.compare_lt_iff in Hxy. apply N.compare_lt_iff in Hyz.
    apply N.compare_lt_iff. now apply (N.lt_trans x y z).
  - apply N.compare_gt_iff in Hxy. apply N.compare_gt_iff in Hyz.
    apply N.compare_gt_iff. now apply (N.lt_trans z y x).
Qed.

Lemma js_leb_antisym a b : js_leb a b = true -> js_leb b a = true -> a = b.
Proof.
  unfold js_leb. rewrite (js_compare_antisym a b).
  destruct (js_compare a b) eqn:E; simpl; try discriminate. intros _ _.
  unfold js_compare in E.
  destruct (list_compare N.compare (code_units a) (code_units b)); try discriminate.
  now apply String.compare_eq_iff.
Qed.

Lemma js_leb_trans a b c :
  js_leb a b = true -> js_leb b c = true -> js_leb a c = true.
Proof.
  unfold js_leb, js_compare.
  destruct (list_compare N.compare (code_units a) (code_units b)) eqn:Eab;
    destruct (list_compare N.compare (code_units b) (code_units c)) eqn:Ebc;
    try discriminate.
  - apply (list_compare_refl N.compare N.compare_eq_iff) in Eab, Ebc.
    rewrite Eab, Ebc.
    rewrite (proj2 (list_compare_refl N.compare N.compare_eq_iff _ _) eq_refl).
    intros Hab Hbc. fold (String.leb a b) in Hab. fold (String.leb b c) in Hbc.
    fold (String.leb a c). now apply (string_leb_trans a b c).
  - apply (list_compare_refl N.compare N.compare_eq_iff) in Eab.
    rewrite Eab, Ebc. reflexivity.
  - apply (list_compare_refl N.compare N.compare_eq_iff) in Ebc.
    rewrite <- Ebc, Eab. reflexivity.
  - rewrite (list_compare_trans N.compare N.compare_eq_iff _ _ _
               N_compare_trans (fun x y => N.compare_antisym x y) Eab Ebc).
    reflexivity.
Qed.

Lemma Array_sort_strongly_sorted l : StronglySorted js_le (Array_sort l).
Proof.
  apply Sorted_StronglySorted.
  - intros a b c. unfold js_le. apply js_leb_trans.
  - apply StringSort.Sorted_sort.
Qed.

(** Two duplicate-free sorted lists with the same members are equal. *)
Lemma sorted_unique l1 :
  forall l2,
    StronglySorted js_le l1 -> StronglySorted js_le l2 ->
    NoDup l1 -> NoDup l2 ->
    (forall x, In x l1 <-> In x l2) ->
    l1 = l2.
Proof.
  induction l1 as [|a l1 IH]; intros l2 Hs1 Hs2 Hn1 Hn2 Hin.
  - destruct l2 as [|b l2]; [reflexivity|]. destruct (proj2 (Hin b) (or_introl eq_refl)).
  - destruct l2 as [|b l2]; [destruct (proj1 (Hin a) (or_introl eq_refl))|].
    inversion Hs1 as [|? ? Hs1' Hall1]; subst.
    inversion Hs2 as [|? ? Hs2' Hall2]; subst.
    inversion Hn1 as [|? ? Hna Hn1']; subst.
    inversion Hn2 as [|? ? Hnb Hn2']; subst.
    rewrite Forall_forall in Hall1, Hall2.
    assert (Hab : a = b).
    { destruct (proj1 (Hin a) (or_introl eq_refl)) as [Hba|Ha2]; [now symmetry|].
      destruct (proj2 (Hin b) (or_introl eq_refl)) as [Hab|Hb1]; [assumption|].
      apply js_leb_antisym; [now apply Hall1|now apply Hall2]. }
    subst b. f_equal. apply IH; try assumption.
    intros x. split; intros Hx.
    + destruct (proj1 (Hin x) (or_intror Hx)) as [<-|H]; [contradiction|assumption].
    + destruct (proj2 (Hin x) (or_intror Hx)) as [<-|H]; [contradiction|assumption].
Qed.

Lemma buildColumn_same_rows rows rows' col :
  same_rows rows rows' -> buildColumn rows col = buildColumn rows' col.
Proof.
  intros Hsame. unfold buildColumn. f_equal.
  destruct (buildColumn_spec rows col) as (_ & _ & Hn & _ & Hv).
  destruct (buildColumn_spec rows' col) as (_ & _ & Hn' & _ & Hv').
  simpl in Hn, Hn', Hv, Hv'.
  apply sorted_unique; try assumption; try apply Array_sort_strongly_sorted.
  intros x. specialize (Hv x). specialize (Hv' x). simpl in Hv, Hv'.
  rewrite Hv, Hv'. split; intros (Hx & row & Hin & Hg); split; try assumption;
    exists row; split; try assumption; now apply Hsame.
Qed.

(** X11.  The schema depends on the rows after the first only as a set:
    reordering them, or repeating some, changes neither the columns nor
    the options of any column. *)
Theorem buildColumnInfo_row_order first rest rest' :
  same_rows rest rest' ->
  buildColumnInfo (first :: rest) = buildColumnInfo (first :: rest').
Proof.
  intros Hsame. simpl. apply map_ext. intros col.
  apply buildColumn_same_rows.
  intros r. simpl. rewrite (Hsame r). reflexivity.
Qed.

Lemma buildColumnInfo_row_order_witness :
  buildColumnInfo
    ([("Mood", "Sad"); (TIP, "Take a walk")]
       :: [[("Mood", "Happy"); (TIP, "Keep going")]; [("Mood", "Calm"); (TIP, "Rest")]])
  = buildColumnInfo
      ([("Mood", "Sad"); (TIP, "Take a walk")]
         :: [[("Mood", "Calm"); (TIP, "Rest")];
             [("Mood", "Happy"); (TIP, "Keep going")];
             [("Mood", "Calm"); (TIP, "Rest")]]).
Proof.
  apply (buildColumnInfo_row_order [("Mood", "Sad"); (TIP, "Take a walk")]).
  intros r. simpl. tauto.
Defined.

(** X12.  A supplied field that no row matches does not influence the
    choice: with or without it, [findBestMatch] returns the same row. *)
Theorem findBestMatch_ignores_unmatched_field fields k v mlData :
  (forall row, In row mlData -> strict_eq (row_get row k) v = false) ->
  findBestMatch (JObj (fields ++ [(k, v)])) mlData
  = findBestMatch (JObj fields) mlData.
Proof.
  intros Hno.
  assert (Hcount : forall row, In row mlData ->
                     matchCount (fields ++ [(k, v)]) row = matchCount fields row).
  { intros row Hin. unfold matchCount. rewrite filter_app, length_app. simpl.
    rewrite (Hno row Hin). simpl. lia. }
  destruct fields as [|kv fields'] eqn:Hfields.
  - destruct mlData as [|first rest]; [reflexivity|].
    rewrite (findBestMatch_no_fields (JObj []) first rest eq_refl).
    apply (findBestMatch_without_any_match (JObj ([] ++ [(k, v)])) [(k, v)]);
      [reflexivity|].
    intros row k' t Hin [Heq|[]] Hg. injection Heq as -> ->.
    specialize (Hno row Hin). rewrite Hg in Hno. simpl in Hno.
    rewrite String.eqb_refl in Hno. discriminate.
  - rewrite <- Hfields in *.
    rewrite (findBestMatch_as_raw (JObj (fields ++ [(k, v)])) (fields ++ [(k, v)]) mlData
               eq_refl) by (destruct fields; discriminate).
    rewrite (findBestMatch_as_raw (JObj fields) fields mlData eq_refl)
      by (rewrite Hfields; discriminate).
    unfold findBestMatch_raw, res_bind. simpl Object_entries. cbv beta iota. f_equal. f_equal.
    generalize (hd_error mlData, (-1)%Z).
    induction mlData as [|row rows IH]; intros st; [reflexivity|]. simpl.
    assert (Hstep : rawStep (fields ++ [(k, v)]) st row = rawStep fields st row).
    { unfold rawStep. rewrite !rowScore_matchCount.
      now rewrite (Hcount row (or_introl eq_refl)). }
    rewrite Hstep. apply IH.
    + intros r Hr. apply Hno. now right.
    + intros r Hr. apply Hcount. now right.
Qed.

Lemma findBestMatch_ignores_unmatched_field_witness :
  findBestMatch (JObj ([("Mood", JStr "Happy")] ++ [("Pet", JStr "Cat")])) demo_rows
  = findBestMatch (JObj [("Mood", JStr "Happy")]) demo_rows.
Proof.
  apply (findBestMatch_ignores_unmatched_field [("Mood", JStr "Happy")]
           "Pet" (JStr "Cat") demo_rows).
  intros row [<-|[<-|[<-|[]]]]; reflexivity.
Defined.

(** * Properties of the page *)

(** X13.  However it ends, [onSubmit] leaves [loading] false and the
    columns and the form as they were, and sets the result from the
    answer alone: on an answer with [success] the prediction of the
    answer and no error; on an answer without [success] no prediction and
    a non-empty error; on a rejected request no prediction and
    ['Failed to get prediction'].  Nothing of an earlier prediction or
    error remains. *)
Theorem onSubmit_outcome net values st :
  loading (onSubmit net values st) = false /\
  columns (onSubmit net values st) = columns st /\
  formValues (onSubmit net values st) = formValues st /\
  (forall resp,
      net (CallPOST (request_of_values values)) = Ok resp ->
      success (body resp) = true ->
      prediction (onSubmit net values st) = data_prediction (body resp) /\
      error (onSubmit net values st) = None) /\
  (forall resp,
      net (CallPOST (request_of_values values)) = Ok resp ->
      success (body resp) = false ->
      prediction (onSubmit net values st) = None /\
      exists m, error (onSubmit net values st) = Some m /\ m <> "") /\
  (forall e,
      net (CallPOST (request_of_values values)) = Throw e ->
      prediction (onSubmit net values st) = None /\
      error (onSubmit net values st) = Some "Failed to get prediction").
Proof.
  unfold onSubmit, data_success.
  destruct (net (CallPOST (request_of_values values))) as [resp|e]; simpl.
  - destruct (success (body resp)) eqn:Hs; simpl.
    + split; [reflexivity|]. split; [reflexivity|]. split; [reflexivity|].
      split; [|split].
      * intros r [= <-] _. split; reflexivity.
      * intros r [= <-] H. congruence.
      * intros e [=].
    + split; [reflexivity|]. split; [reflexivity|]. split; [reflexivity|].
      split; [|split].
      * intros r [= <-] H. congruence.
      * intros r [= <-] _. split; [reflexivity|].
        eexists. split; [reflexivity|].
        unfold string_or. destruct (data_error (body resp)) as [m|]; [|discriminate].
        destruct m; simpl; discriminate.
      * intros e [=].
  - split; [reflexivity|]. split; [reflexivity|]. split; [reflexivity|].
    split; [|split].
    + intros r [=].
    + intros r [=].
    + intros e' _. split; reflexivity.
Qed.

Lemma onSubmit_outcome_witness :
  prediction (onSubmit (fun _ => Ok (mkResponse 200 (Prediction (Some "Rest"))))
                [("Mood", "Sad")]
                (mkPageState [] true (Some "Old tip") (Some "Old error") []))
  = data_prediction (body (mkResponse 200 (Prediction (Some "Rest")))) /\
  error (onSubmit (fun _ => Ok (mkResponse 200 (Prediction (Some "Rest"))))
           [("Mood", "Sad")]
           (mkPageState [] true (Some "Old tip") (Some "Old error") []))
  = None.
Proof.
  apply (proj1 (proj2 (proj2 (proj2
           (onSubmit_outcome (fun _ => Ok (mkResponse 200 (Prediction (Some "Rest"))))
              [("Mood", "Sad")]
              (mkPageState [] true (Some "Old tip") (Some "Old error") []))))));
    reflexivity.
Defined.

(** X14.  What the page shows after a submit, when it has columns: the
    form with its button enabled and, on an error, the alert ['Error']
    with the message; on a prediction that is a non-empty string, the
    alert ['Recommended Self-Care Tip'] with it; and on an answer with
    [success] whose prediction is missing or empty, no alert at all. *)
Theorem view_after_submit net values st :
  columns st <> [] ->
  exists selects alert,
    render (onSubmit net values st) = FormView selects false alert /\
    selects = map (fun column => (pname column, selectOptions column)) (columns st) /\
    (forall m, error (onSubmit net values st) = Some m ->
               alert = Some (mkAlert true "Error" (Some m))) /\
    (error (onSubmit net values st) = None ->
     forall tip, prediction (onSubmit net values st) = Some tip -> tip <> "" ->
                 alert = Some (mkAlert false "Recommended Self-Care Tip" (Some tip))) /\
    (error (onSubmit net values st) = None ->
     prediction (onSubmit net values st) = None \/
     prediction (onSubmit net values st) = Some "" ->
     alert = None).
Proof.
  intros Hcols.
  destruct (onSubmit_outcome net values st) as (Hl & Hc & _ & Hok & Hko & Hthrow).
  unfold render. rewrite Hc, Hl.
  destruct (columns st) as [|c cs] eqn:Hcs; [congruence|]. simpl Nat.eqb. cbv iota.
  eexists. eexists. split; [reflexivity|]. split; [reflexivity|].
  assert (Herr : forall m, error (onSubmit net values st) = Some m ->
                           truthy_cell (error (onSubmit net values st)) = true
                           /\ prediction (onSubmit net values st) = None).
  { intros m Hm.
    destruct (net (CallPOST (request_of_values values))) as [resp|e] eqn:Hnet.
    - destruct (success (body resp)) eqn:Hs.
      + destruct (Hok resp eq_refl Hs) as [_ He]. congruence.
      + destruct (Hko resp eq_refl Hs) as [Hp (m' & He & Hne)].
        split; [|assumption]. rewrite He. simpl. now apply truthy_string_iff.
      - destruct (Hthrow e eq_refl) as [Hp He]. split; [|assumption].
        rewrite He. reflexivity. }
  split; [|split].
  - intros m Hm. destruct (Herr m Hm) as [Ht Hp]. rewrite Ht, Hp, Hm.
    rewrite orb_true_r. reflexivity.
  - intros He tip Hp Hne. rewrite He, Hp. simpl.
    apply truthy_string_iff in Hne. rewrite Hne. reflexivity.
  - intros He [Hp|Hp]; rewrite He, Hp; reflexivity.
Qed.

Lemma view_after_submit_witness :
  exists selects alert,
    render (onSubmit (fun _ => Ok (mkResponse 200 (Prediction (Some ""))))
              [("Mood", "Sad")]
              (mkPageState [mkPageColumn "Mood" PCategorical (Some ["Sad"])]
                           false None None [("Mood", "")]))
    = FormView selects false alert /\
    selects = [("Mood", ["Sad"])] /\
    alert = None.
Proof.
  destruct (view_after_submit (fun _ => Ok (mkResponse 200 (Prediction (Some ""))))
              [("Mood", "Sad")]
              (mkPageState [mkPageColumn "Mood" PCategorical (Some ["Sad"])]
                           false None None [("Mood", "")]))
    as (selects & alert & Hr & Hs & _ & _ & Hnone).
  - discriminate.
  - exists selects, alert. split; [exact Hr|]. split; [exact Hs|].
    apply Hnone; [reflexivity|right; reflexivity].
Defined.

(** X15.  A page that has no column yet shows the form after
    [fetchColumns] only when the route answered with a schema of at least
    one column.  In every other case, the two in which [fetchColumns]
    sets an error included, it shows the loading card, and so not the
    error. *)
Theorem loading_card_after_fetchColumns net st :
  columns st = [] ->
  (render (fetchColumns net st) = LoadingCard <->
   ~ exists resp c cs, net CallGET = Ok resp /\ body resp = Columns (c :: cs)) /\
  (forall m, error (fetchColumns net st) = Some m -> error st = None ->
             render (fetchColumns net st) = LoadingCard).
Proof.
  intros Hcols. unfold fetchColumns, data_success.
  destruct (net CallGET) as [resp|e].
  - destruct (body resp) as [msg|p|cols] eqn:Hbody; simpl.
    + rewrite Hcols. unfold render. simpl. split; [|reflexivity].
      split; [|reflexivity]. intros _ (r & c & cs & [= <-] & Hb). congruence.
    + rewrite Hcols. unfold render. simpl. split; [|reflexivity].
      split; [|reflexivity]. intros _ (r & c & cs & [= <-] & Hb). congruence.
    + destruct cols as [|c cs]; unfold render; simpl.
      * split; [|reflexivity].
        split; [|reflexivity]. intros _ (r & c & cs & [= <-] & Hb). congruence.
      * split.
        -- split; [discriminate|]. intros H. exfalso. apply H. eauto.
        -- intros m Hm Hnone. congruence.
  - simpl. rewrite Hcols. unfold render. simpl. split; [|reflexivity].
    split; [|reflexivity]. intros _ (r & c & cs & [=] & _).
Qed.

Lemma loading_card_after_fetchColumns_witness :
  render (fetchColumns (fun _ => Throw (IOError "offline")) page_initial) = LoadingCard.
Proof.
  apply (proj2 (loading_card_after_fetchColumns
                  (fun _ => Throw (IOError "offline")) page_initial eq_refl)
           "Failed to fetch form structure");
    reflexivity.
Defined.

(** ** The page in front of the route *)

(** X16.  When the dataset loads, the page that has just mounted gets from
    [fetchColumns] the columns of the cached schema, and renders one
    select per column with the options of the schema, never the default
    hours, also for a column without any option; when the schema has no
    column it stays on the loading card although the route answered 200. *)
Theorem page_shows_schema parse env s d s1 :
  getCachedData parse env s = (Ok (Some d), s1) ->
  columns (fetchColumns (route_network parse env s) page_initial)
  = map column_on_page (columnInfo d) /\
  error (fetchColumns (route_network parse env s) page_initial) = None /\
  render (fetchColumns (route_network parse env s) page_initial)
  = match columnInfo d with
    | [] => LoadingCard
    | _ :: _ => FormView (map (fun c => (name c, options c)) (columnInfo d)) false None
    end.
Proof.
  intros Hget. unfold fetchColumns, route_network. simpl handle.
  rewrite (GET_loaded parse env s d s1 Hget). simpl.
  split; [reflexivity|]. split; [reflexivity|].
  unfold render. simpl. rewrite length_map.
  destruct (columnInfo d) as [|c cs]; [reflexivity|]. simpl.
  rewrite map_map. reflexivity.
Qed.

Lemma page_shows_schema_witness :
  render (fetchColumns (route_network demo_parse (demo_env 1000) initial) page_initial)
  = match columnInfo (demo_cache 1000) with
    | [] => LoadingCard
    | _ :: _ =>
        FormView (map (fun c => (name c, options c)) (columnInfo (demo_cache 1000)))
                 false None
    end.
Proof.
  apply (page_shows_schema demo_parse (demo_env 1000) initial
           (demo_cache 1000) (demo_sys 1000)).
  reflexivity.
Defined.

(** X17.  A submit of the page to the route, in a state the module can be
    in: when the dataset loads, the page ends with no error and with, as
    prediction, the tip of the row that [findBestMatch] selects in the
    cached dataset for the submitted values; when it does not load, the
    page ends with no prediction and the error
    ['Failed to generate recommendation'].  The page never gets
    ['Invalid input format'] from the route. *)
Theorem submit_to_route parse env s values st :
  reachable parse s ->
  (forall d s1,
      getCachedData parse env s = (Ok (Some d), s1) ->
      exists best,
        findBestMatch (JObj (map (fun kv => (fst kv, JStr (snd kv))) values)) (mlData d)
        = Ok (Some best) /\
        In best (mlData d) /\
        prediction (onSubmit (route_network parse env s) values st) = row_get best TIP /\
        error (onSubmit (route_network parse env s) values st) = None) /\
  (forall e s1,
      getCachedData parse env s = (Throw e, s1) ->
      prediction (onSubmit (route_network parse env s) values st) = None /\
      error (onSubmit (route_network parse env s) values st)
      = Some "Failed to generate recommendation") /\
  error (onSubmit (route_network parse env s) values st) <> Some "Invalid input format".
Proof.
  intros Hreach.
  assert (Hok : forall d s1,
             getCachedData parse env s = (Ok (Some d), s1) ->
             exists best,
               findBestMatch (JObj (map (fun kv => (fst kv, JStr (snd kv))) values))
                             (mlData d) = Ok (Some best) /\
               In best (mlData d) /\
               route_network parse env s (CallPOST (request_of_values values))
               = Ok (mkResponse 200 (Prediction (row_get best TIP)))).
  { intros d s1 Hget.
    destruct (served_cache_valid parse env s d s1 Hreach Hget)
      as (first & rest & Hrows & _ & _).
    destruct (findBestMatch_some
                (JObj (map (fun kv => (fst kv, JStr (snd kv))) values)) _ first rest eq_refl)
      as (best & Hb & Hin).
    rewrite <- Hrows in Hb, Hin. exists best. split; [assumption|]. split; [assumption|].
    unfold route_network. simpl handle.
    now rewrite (POST_matched parse env (request_of_values values) s d s1 _ best Hget
                   eq_refl eq_refl Hb). }
  assert (Hko : forall e s1,
             getCachedData parse env s = (Throw e, s1) ->
             route_network parse env s (CallPOST (request_of_values values))
             = Ok (mkResponse 500 (Failure "Failed to generate recommendation"))).
  { intros e s1 Hget. unfold route_network. simpl handle.
    now rewrite (POST_failed parse env (request_of_values values) s e s1 Hget). }
  split; [|split].
  - intros d s1 Hget. destruct (Hok d s1 Hget) as (best & Hb & Hin & Hnet).
    exists best. split; [assumption|]. split; [assumption|].
    unfold onSubmit. rewrite Hnet. split; reflexivity.
  - intros e s1 Hget. unfold onSubmit. rewrite (Hko e s1 Hget). split; reflexivity.
  - destruct (getCachedData parse env s) as [[c|e] s1] eqn:Hget.
    + destruct (getCachedData_result parse env s c s1 Hget) as (d & -> & _).
      destruct (Hok d s1 eq_refl) as (best & _ & _ & Hnet).
      unfold onSubmit. rewrite Hnet. discriminate.
    + unfold onSubmit. rewrite (Hko e s1 eq_refl). discriminate.
Qed.

Lemma submit_to_route_witness :
  exists best,
    findBestMatch (JObj (map (fun kv => (fst kv, JStr (snd kv))) [("Mood", "Happy")]))
                  (mlData (demo_cache 1000))
    = Ok (Some best) /\
    In best (mlData (demo_cache 1000)) /\
    prediction (onSubmit (route_network demo_parse (demo_env 1000) initial)
                  [("Mood", "Happy")] page_initial)
    = row_get best TIP /\
    error (onSubmit (route_network demo_parse (demo_env 1000) initial)
             [("Mood", "Happy")] page_initial)
    = None.
Proof.
  apply (proj1 (submit_to_route demo_parse (demo_env 1000) initial
                  [("Mood", "Happy")] page_initial (reach_initial demo_parse))
           (demo_cache 1000) (demo_sys 1000)).
  reflexivity.
Defined.

(** ** The default values of the form *)

Lemma row_get_obj_set o k v k' :
  row_get (obj_set o k v) k' = if String.eqb k k' then Some v else row_get o k'.
Proof.
  induction o as [|[k0 v0] o IH]; simpl.
  - destruct (String.eqb k k'); reflexivity.
  - destruct (String.eqb_spec k0 k) as [->|Hk0]; simpl.
    + destruct (String.eqb k k'); reflexivity.
    + rewrite IH. destruct (String.eqb_spec k0 k') as [->|Hk0'].
      * apply String.eqb_neq in Hk0. rewrite String.eqb_sym in Hk0. now rewrite Hk0.
      * reflexivity.
Qed.

Lemma obj_set_keys o k v :
  map fst (obj_set o k v) = if existsb (String.eqb k) (map fst o)
                            then map fst o else map fst o ++ [k].
Proof.
  induction o as [|[k0 v0] o IH]; simpl; [reflexivity|].
  rewrite (String.eqb_sym k k0).
  destruct (String.eqb k0 k); simpl; [reflexivity|].
  rewrite IH. destruct (existsb (String.eqb k) (map fst o)); reflexivity.
Qed.

Lemma defaultValues_acc cols :
  forall acc,
    (forall k, row_get (fold_left (fun a c => obj_set a (pname c) "") cols acc) k
               = if existsb (fun c => String.eqb (pname c) k) cols
                 then Some "" else row_get acc k) /\
    (NoDup (map fst acc) ->
     NoDup (map fst (fold_left (fun a c => obj_set a (pname c) "") cols acc))).
Proof.
  induction cols as [|c cols IH]; intros acc; simpl.
  - auto.
  - destruct (IH (obj_set acc (pname c) "")) as [IHg IHn]. split.
    + intros k. rewrite IHg, row_get_obj_set.
      destruct (String.eqb (pname c) k); simpl;
        destruct (existsb (fun c0 => String.eqb (pname c0) k) cols); reflexivity.
    + intros Hn. apply IHn. rewrite obj_set_keys.
      destruct (existsb (String.eqb (pname c)) (map fst acc)) eqn:E; [assumption|].
      apply NoDup_app; [assumption|repeat constructor; auto|].
      intros x Hx [<-|[]].
      assert (existsb (String.eqb (pname c)) (map fst acc) = true); [|congruence].
      apply existsb_exists. exists (pname c). split; [assumption|apply String.eqb_refl].
Qed.

(** X18.  The default values that [fetchColumns] gives the form hold the
    empty string under the name of every column and nothing under any
    other key, each key once, also when two columns bear one name. *)
Theorem defaultValues_spec cols :
  (forall c, In c cols -> row_get (defaultValues cols) (pname c) = Some "") /\
  (forall k, (forall c, In c cols -> pname c <> k) ->
             row_get (defaultValues cols) k = None) /\
  NoDup (map fst (defaultValues cols)).
Proof.
  destruct (defaultValues_acc cols []) as [Hg Hn]. unfold defaultValues.
  split; [|split].
  - intros c Hin. rewrite Hg.
    replace (existsb _ cols) with true; [reflexivity|].
    symmetry. apply existsb_exists. exists c. split; [assumption|apply String.eqb_refl].
  - intros k Hk. rewrite Hg.
    destruct (existsb (fun c => String.eqb (pname c) k) cols) eqn:E; [|reflexivity].
    apply existsb_exists in E. destruct E as (c & Hin & Heq).
    apply String.eqb_eq in Heq. destruct (Hk c Hin Heq).
  - apply Hn. constructor.
Qed.

Lemma defaultValues_spec_witness :
  row_get (defaultValues [mkPageColumn "Mood" PCategorical (Some ["Sad"]);
                          mkPageColumn "Mood" PNumeric None])
          (pname (mkPageColumn "Mood" PNumeric None))
  = Some "".
Proof.
  apply (proj1 (defaultValues_spec [mkPageColumn "Mood" PCategorical (Some ["Sad"]);
                                    mkPageColumn "Mood" PNumeric None])).
  right. left. reflexivity.
Defined.

(** X19.  Submitting the form as [fetchColumns] left it, every value the
    empty string, to a route whose cached dataset holds no empty cell:
    the page ends with the tip of the first row of the dataset. *)
Theorem submit_untouched_form parse env s d s1 cols st :
  reachable parse s ->
  getCachedData parse env s = (Ok (Some d), s1) ->
  (forall row k, In row (mlData d) -> row_get row k <> Some "") ->
  exists first rest,
    mlData d = first :: rest /\
    prediction (onSubmit (route_network parse env s) (defaultValues cols) st)
    = row_get first TIP /\
    error (onSubmit (route_network parse env s) (defaultValues cols) st) = None.
Proof.
  intros Hreach Hget Hfull.
  destruct (served_cache_valid parse env s d s1 Hreach Hget)
    as (first & rest & Hrows & _ & _).
  exists first, rest. split; [assumption|].
  assert (Hb : findBestMatch
                 (JObj (map (fun kv => (fst kv, JStr (snd kv))) (defaultValues cols)))
                 (mlData d) = Ok (Some first)).
  { rewrite Hrows.
    apply (findBestMatch_without_any_match
             (JObj (map (fun kv => (fst kv, JStr (snd kv))) (defaultValues cols)))
             (map (fun kv => (fst kv, JStr (snd kv))) (defaultValues cols))
             first rest eq_refl).
    intros row k t Hin Hkv Hg. rewrite <- Hrows in Hin.
    apply in_map_iff in Hkv. destruct Hkv as ([k0 v0] & [= -> <-] & Hkv).
    assert (Hv : row_get (defaultValues cols) k = Some v0 -> v0 = "").
    { destruct (defaultValues_acc cols []) as [Hgd _]. unfold defaultValues.
      rewrite Hgd. destruct (existsb _ cols); simpl; congruence. }
    assert (Hk : row_get (defaultValues cols) k = Some v0).
    { destruct (defaultValues_spec cols) as (_ & _ & Hnd).
      clear - Hkv Hnd. induction (defaultValues cols) as [|[k1 v1] l IH]; [destruct Hkv|].
      simpl in *. inversion Hnd as [|? ? Hnot Hnd']; subst.
      destruct Hkv as [[= -> ->]|Hkv]; [now rewrite String.eqb_refl|].
      destruct (String.eqb_spec k1 k) as [->|_]; [|now apply IH].
      exfalso. apply Hnot. apply in_map_iff. exists (k, v0). auto. }
    specialize (Hv Hk). subst v0. exact (Hfull row k Hin Hg). }
  unfold onSubmit, route_network. simpl handle.
  rewrite (POST_matched parse env (request_of_values (defaultValues cols)) s d s1 _ first
             Hget eq_refl eq_refl Hb).
  split; reflexivity.
Qed.

Lemma submit_untouched_form_witness :
  exists first rest,
    mlData (mkCacheData [[("Mood", "Sad"); (TIP, "Take a walk")];
                         [("Mood", "Happy"); (TIP, "Keep going")]]
                        [mkColumn "Mood" categorical ["Happy"; "Sad"]] 1005)
    = first :: rest /\
    prediction
      (onSubmit
         (route_network (fun _ => [[("Mood", "Sad"); (TIP, "Take a walk")];
                                   [("Mood", "Happy"); (TIP, "Keep going")]])
            (demo_env 1000) initial)
         (defaultValues [mkPageColumn "Mood" PCategorical (Some ["Happy"; "Sad"])])
         page_initial)
    = row_get first TIP /\
    error
      (onSubmit
         (route_network (fun _ => [[("Mood", "Sad"); (TIP, "Take a walk")];
                                   [("Mood", "Happy"); (TIP, "Keep going")]])
            (demo_env 1000) initial)
         (defaultValues [mkPageColumn "Mood" PCategorical (Some ["Happy"; "Sad"])])
         page_initial)
    = None.
Proof.
  apply (submit_untouched_form
           (fun _ => [[("Mood", "Sad"); (TIP, "Take a walk")];
                      [("Mood", "Happy"); (TIP, "Keep going")]])
           (demo_env 1000) initial
           (mkCacheData [[("Mood", "Sad"); (TIP, "Take a walk")];
                         [("Mood", "Happy"); (TIP, "Keep going")]]
                        [mkColumn "Mood" categorical ["Happy"; "Sad"]] 1005)
           (mkSys (Some (mkCacheData [[("Mood", "Sad"); (TIP, "Take a walk")];
                                      [("Mood", "Happy"); (TIP, "Keep going")]]
                                     [mkColumn "Mood" categorical ["Happy"; "Sad"]] 1005))
                  [ReadFile "/app/public/data.csv"])).
  - apply reach_initial.
  - reflexivity.
  - intros row k [<-|[<-|[]]]; unfold not; cbn [row_get];
      repeat destruct (String.eqb _ k); discriminate.
Defined.

(** * Calls that overlap *)

(** ** Run alone, a call does what the handler of the first embedding does *)

Lemma complete_task_bind {A B} (t : Task A) (k : A -> T B) :
  forall s,
    complete (fst (task_bind t k s)) (snd (task_bind t k s))
    = match complete t s with
      | (Ok a, s1) => run_alone (k a) s1
      | (Throw e, s1) => (Throw e, s1)
      end.
Proof.
  induction t as [[a|e]|next IH effect]; intros s; simpl.
  - unfold run_alone. destruct (k a s). reflexivity.
  - reflexivity.
  - apply IH.
Qed.

Lemma complete_task_catch {A} (t : Task A) (h : Exn -> T A) :
  forall s,
    complete (fst (task_catch t h s)) (snd (task_catch t h s))
    = match complete t s with
      | (Ok a, s1) => (Ok a, s1)
      | (Throw e, s1) => run_alone (h e) s1
      end.
Proof.
  induction t as [[a|e]|next IH effect]; intros s; simpl.
  - reflexivity.
  - unfold run_alone. destruct (h e s). reflexivity.
  - apply IH.
Qed.

Lemma complete_tick {A} (t : Task A) : forall s, complete (tick t) s = complete t s.
Proof.
  induction t as [r|next IH effect]; intros s; simpl; [reflexivity|apply IH].
Qed.

Lemma run_alone_tbind {A B} (m : T A) (k : A -> T B) s :
  run_alone (tbind m k) s = bind (run_alone m) (fun a => run_alone (k a)) s.
Proof.
  unfold run_alone at 1, tbind, bind. unfold run_alone at 1.
  destruct (m s) as [t s1].
  pose proof (complete_task_bind t k s1) as H.
  destruct (task_bind t k s1) as [t' s']. simpl in H. rewrite H.
  destruct (complete t s1) as [[a|e] s2]; reflexivity.
Qed.

Lemma run_alone_tcatch {A} (m : T A) (h : Exn -> T A) s :
  run_alone (tcatch m h) s = try_catch (run_alone m) (fun e => run_alone (h e)) s.
Proof.
  unfold run_alone at 1, tcatch, try_catch. unfold run_alone at 1.
  destruct (m s) as [t s1].
  pose proof (complete_task_catch t h s1) as H.
  destruct (task_catch t h s1) as [t' s']. simpl in H. rewrite H.
  destruct (complete t s1) as [[a|e] s2]; reflexivity.
Qed.

Lemma run_alone_await {A} (m : T A) s : run_alone (await m) s = run_alone m s.
Proof.
  unfold run_alone, await. destruct (m s) as [t s1]. apply complete_tick.
Qed.

Lemma run_alone_atomic {A} (m : M A) s : run_alone (atomic m) s = m s.
Proof.
  unfold run_alone, atomic. destruct (m s). reflexivity.
Qed.

Lemma bind_ext {A B} (m m' : M A) (k k' : A -> M B) s :
  (forall s0, m s0 = m' s0) -> (forall a s0, k a s0 = k' a s0) ->
  bind m k s = bind m' k' s.
Proof.
  intros Hm Hk. unfold bind. rewrite Hm. destruct (m' s) as [[a|e] s1]; auto.
Qed.

Lemma try_catch_ext {A} (m m' : M A) (h h' : Exn -> M A) s :
  (forall s0, m s0 = m' s0) -> (forall e s0, h e s0 = h' e s0) ->
  try_catch m h s = try_catch m' h' s.
Proof.
  intros Hm Hh. unfold try_catch. rewrite Hm. destruct (m' s) as [[a|e] s1]; auto.
Qed.

Lemma run_alone_loadAndProcessData parse env s :
  run_alone (loadAndProcessData_async parse env) s = loadAndProcessData parse env s.
Proof.
  unfold loadAndProcessData_async. rewrite run_alone_tbind.
  unfold loadAndProcessData. apply bind_ext.
  - intros s0. reflexivity.
  - intros csv s0. rewrite run_alone_atomic. unfold processData.
    destruct (parse csv) as [|first rest]; reflexivity.
Qed.

Lemma run_alone_getCachedData parse env s :
  run_alone (getCachedData_async parse env) s = getCachedData parse env s.
Proof.
  unfold getCachedData_async, getCachedData.
  rewrite run_alone_tbind. apply bind_ext; [apply run_alone_atomic|].
  intros c s0. rewrite run_alone_tbind. apply bind_ext.
  - intros s1. destruct (refreshDue env c); [|apply run_alone_atomic].
    rewrite run_alone_tcatch. apply try_catch_ext.
    + intros s2. rewrite run_alone_tbind. apply bind_ext.
      * intros s3. rewrite run_alone_await. apply run_alone_loadAndProcessData.
      * intros d s3. apply run_alone_atomic.
    + intros e s2. apply run_alone_atomic.
  - intros [] s1. apply run_alone_atomic.
Qed.

Lemma run_alone_handle parse env c s :
  run_alone (handle_async parse env c) s = handle parse env c s.
Proof.
  destruct c as [|req]; simpl.
  - unfold GET_async, GET. rewrite run_alone_tcatch. apply try_catch_ext.
    + intros s0. rewrite run_alone_tbind. apply bind_ext.
      * intros s1. rewrite run_alone_await. apply run_alone_getCachedData.
      * intros c s1. rewrite run_alone_tbind. apply bind_ext;
          [apply run_alone_atomic|intros d s2; apply run_alone_atomic].
    + intros e s0. apply run_alone_atomic.
  - unfold POST_async, POST. rewrite run_alone_tcatch. apply try_catch_ext.
    + intros s0. rewrite run_alone_tbind. apply bind_ext.
      * intros s1. rewrite run_alone_await. apply run_alone_getCachedData.
      * intros c s1. rewrite run_alone_tbind. apply bind_ext;
          [apply run_alone_atomic|].
        intros d s2. rewrite run_alone_tbind. apply bind_ext.
        -- intros s3. reflexivity.
        -- intros v s3. apply run_alone_atomic.
    + intros e s0. apply run_alone_atomic.
Qed.

Lemma in_turn_serve parse calls :
  forall s, in_turn parse calls s = serve parse calls s.
Proof.
  induction calls as [|[env c] calls IH]; intros s; simpl; [reflexivity|].
  rewrite run_alone_handle. destruct (handle parse env c s) as [r s'].
  now rewrite IH.
Qed.

(** ** Which part of a call reads the file *)

Lemma reads_snoc_console t l e : reads (t ++ [ConsoleError l e]) = reads t.
Proof. unfold reads. rewrite filter_app, length_app. simpl. lia. Qed.

Lemma reads_snoc_read t p : reads (t ++ [ReadFile p]) = S (reads t).
Proof. unfold reads. rewrite filter_app, length_app. simpl. lia. Qed.

Lemma never_reads_tick {A} (t : Task A) : never_reads t -> never_reads (tick t).
Proof.
  induction 1 as [r|next effect He Hn IH]; simpl; constructor; auto.
  intros s. constructor.
Qed.

Lemma never_reads_task_bind {A B} (t : Task A) (k : A -> T B) :
  never_reads t ->
  (forall a, reads_at_call (fun _ => 0%nat) (k a)) ->
  forall s,
    reads (trace (snd (task_bind t k s))) = reads (trace s) /\
    never_reads (fst (task_bind t k s)).
Proof.
  intros Ht Hk. induction Ht as [[a|e]|next effect He Hn IH]; intros s; simpl.
  - destruct (Hk a s) as [Hr Hnr]. split; [lia|assumption].
  - split; [reflexivity|constructor].
  - split; [reflexivity|]. constructor.
    + intros s'. rewrite (proj1 (IH s' (effect s'))). apply He.
    + intros s'. apply IH.
Qed.

Lemma never_reads_task_catch {A} (t : Task A) (h : Exn -> T A) :
  never_reads t ->
  (forall e, reads_at_call (fun _ => 0%nat) (h e)) ->
  forall s,
    reads (trace (snd (task_catch t h s))) = reads (trace s) /\
    never_reads (fst (task_catch t h s)).
Proof.
  intros Ht Hh. induction Ht as [[a|e]|next effect He Hn IH]; intros s; simpl.
  - split; [reflexivity|constructor].
  - destruct (Hh e s) as [Hr Hnr]. split; [lia|assumption].
  - split; [reflexivity|]. constructor.
    + intros s'. rewrite (proj1 (IH s' (effect s'))). apply He.
    + intros s'. apply IH.
Qed.

Lemma reads_at_call_tbind {A B} n (m : T A) (k : A -> T B) :
  reads_at_call n m ->
  (forall a, reads_at_call (fun _ => 0%nat) (k a)) ->
  reads_at_call n (tbind m k).
Proof.
  intros Hm Hk s. unfold tbind. destruct (Hm s) as [Hr Hn].
  destruct (m s) as [t s1]. simpl in Hr, Hn.
  destruct (never_reads_task_bind t k Hn Hk s1) as [Hr' Hn'].
  split; [lia|assumption].
Qed.

Lemma reads_at_call_tcatch {A} n (m : T A) (h : Exn -> T A) :
  reads_at_call n m ->
  (forall e, reads_at_call (fun _ => 0%nat) (h e)) ->
  reads_at_call n (tcatch m h).
Proof.
  intros Hm Hh s. unfold tcatch. destruct (Hm s) as [Hr Hn].
  destruct (m s) as [t s1]. simpl in Hr, Hn.
  destruct (never_reads_task_catch t h Hn Hh s1) as [Hr' Hn'].
  split; [lia|assumption].
Qed.

Lemma reads_at_call_await {A} n (m : T A) :
  reads_at_call n m -> reads_at_call n (await m).
Proof.
  intros Hm s. unfold await. destruct (Hm s) as [Hr Hn].
  destruct (m s) as [t s1]. simpl in *. split; [assumption|].
  now apply never_reads_tick.
Qed.

Lemma reads_at_call_atomic {A} (m : M A) :
  reads_nothing m -> reads_at_call (fun _ => 0%nat) (atomic m).
Proof.
  intros Hm s. unfold atomic. specialize (Hm s). destruct (m s) as [r s1].
  simpl in *. split; [lia|constructor].
Qed.

Lemma reads_nothing_processData parse env csv : reads_nothing (processData parse env csv).
Proof.
  intros s. unfold processData.
  destruct (parse csv) as [|first rest]; [reflexivity|].
  destruct (has_key first TIP); reflexivity.
Qed.

Lemma reads_at_call_loadAndProcessData parse env :
  reads_at_call (fun _ => 1%nat) (loadAndProcessData_async parse env).
Proof.
  unfold loadAndProcessData_async. apply reads_at_call_tbind.
  - intros s. simpl. rewrite reads_snoc_read. split; [lia|].
    constructor; [reflexivity|]. intros s'. constructor.
  - intros csv. apply reads_at_call_atomic, reads_nothing_processData.
Qed.

Lemma tbind_get_cache {B} (k : option CacheData -> T B) s :
  tbind (atomic get_cache) k s = k (cache s) s.
Proof. reflexivity. Qed.

Lemma reads_at_call_getCachedData parse env :
  reads_at_call (fun s => if refreshDue env (cache s) then 1%nat else 0%nat)
                (getCachedData_async parse env).
Proof.
  intros s. unfold getCachedData_async. rewrite tbind_get_cache.
  assert (Hlast : forall u : unit, reads_at_call (fun _ => 0%nat) (atomic get_cache))
    by (intros _; apply reads_at_call_atomic; intros s0; reflexivity).
  destruct (refreshDue env (cache s)).
  - refine (reads_at_call_tbind (fun _ => 1%nat) _ _ _ Hlast s).
    apply reads_at_call_tcatch.
    + apply reads_at_call_tbind.
      * apply reads_at_call_await, reads_at_call_loadAndProcessData.
      * intros d. apply reads_at_call_atomic. intros s0. reflexivity.
    + intros e. apply reads_at_call_atomic. intros s0.
      unfold bind, console_error, emit, throw. simpl. apply reads_snoc_console.
  - refine (reads_at_call_tbind (fun _ => 0%nat) _ _ _ Hlast s).
    apply reads_at_call_atomic. intros s0. reflexivity.
Qed.

Lemma reads_at_call_handle parse env c :
  reads_at_call (fun s => if refreshDue env (cache s) then 1%nat else 0%nat)
                (handle_async parse env c).
Proof.
  destruct c as [|req]; simpl.
  - unfold GET_async. apply reads_at_call_tcatch.
    + apply reads_at_call_tbind;
        [apply reads_at_call_await, reads_at_call_getCachedData|].
      intros c. apply reads_at_call_tbind.
      * apply reads_at_call_atomic. intros s. destruct c; reflexivity.
      * intros d. apply reads_at_call_atomic. intros s. reflexivity.
    + intros e. apply reads_at_call_atomic. intros s.
      unfold bind, console_error, emit, ret. simpl. apply reads_snoc_console.
  - unfold POST_async. apply reads_at_call_tcatch.
    + apply reads_at_call_tbind;
        [apply reads_at_call_await, reads_at_call_getCachedData|].
      intros c. apply reads_at_call_tbind.
      * apply reads_at_call_atomic. intros s. destruct c; reflexivity.
      * intros d. apply reads_at_call_tbind.
        -- intros s. simpl. split; [lia|].
           constructor; [reflexivity|]. intros s'. constructor.
        -- intros v. apply reads_at_call_atomic. intros s.
           destruct (negb (truthy v) || negb (String.eqb (typeof v) "object"));
             [reflexivity|].
           unfold bind, lift, ret.
           destruct (findBestMatch v (mlData d)) as [[best|]|e]; reflexivity.
    + intros e. apply reads_at_call_atomic. intros s.
      unfold bind, console_error, emit, ret. simpl. apply reads_snoc_console.
Qed.

(** ** A call inside the window of a cached entry *)

Lemma getCachedData_async_fresh parse env s :
  refreshDue env (cache s) = false ->
  getCachedData_async parse env s = (Settled (Ok (cache s)), s).
Proof.
  intros H. unfold getCachedData_async. rewrite tbind_get_cache, H. reflexivity.
Qed.

Lemma handle_async_in_window parse env c s d :
  cache s = Some d ->
  (now_check env - lastUpdated d <= 3600000)%Z ->
  snd (handle_async parse env c s) = s /\
  settles_with (fst (handle parse env c s)) (fst (handle_async parse env c s)).
Proof.
  intros Hc Hw.
  destruct (handle_in_window parse env c s d Hc Hw) as (Hget & _).
  assert (Hdue : refreshDue env (cache s) = false).
  { rewrite Hc. unfold refreshDue, CACHE_DURATION.
    rewrite Z.gtb_ltb. apply Z.ltb_ge. lia. }
  pose proof (getCachedData_async_fresh parse env s Hdue) as Hfresh.
  rewrite Hc in Hfresh.
  destruct c as [|req]; simpl handle; simpl handle_async.
  - rewrite (GET_loaded parse env s d s Hget).
    unfold GET_async, tcatch, tbind, await. rewrite Hfresh. cbn.
    split; [reflexivity|].
    constructor; intros s0; cbn; [split; reflexivity|constructor].
  - unfold POST, try_catch, bind, destructure, lift. rewrite Hget. cbn.
    unfold POST_async, tcatch, tbind, await. rewrite Hfresh. cbn.
    split; [reflexivity|].
    constructor; intros s0; cbn; [split; reflexivity|].
    constructor; intros s1; cbn.
    + destruct (req_json req) as [v|e]; cbn.
      * destruct (negb (truthy v) || negb (String.eqb (typeof v) "object")); cbn;
          [split; reflexivity|].
        destruct (findBestMatch v (mlData d)) as [[best|]|e]; cbn;
          split; try reflexivity; apply reads_snoc_console.
      * split; [reflexivity|apply reads_snoc_console].
    + destruct (req_json req) as [v|e]; cbn.
      * destruct (negb (truthy v) || negb (String.eqb (typeof v) "object")); cbn;
          [constructor|].
        destruct (findBestMatch v (mlData d)) as [[best|]|e]; cbn; constructor.
      * constructor.
Qed.

(** ** The cache under calls that may overlap *)

(** C4, as the code has it.  A call, [GET] or [POST], reads the file
    exactly when, at its test of the cache, there is no cache or more than
    3600000 ms have passed since [lastUpdated]; it then reads it once,
    before its first [await], and at no resumption.  A call that makes its
    test inside the window reads nothing, leaves the module state as it
    is and, whatever other calls do before it resumes, settles with the
    answer computed from the entry it found, for [GET] the schema of that
    entry.  Calls that do not overlap and all fall inside the window of an
    entry leave that entry in the cache and read the file not once; so a
    call that loads the file, followed by such calls inside the window of
    what it loaded, reads the file once in all. *)
Theorem cache_refresh_policy parse :
  CACHE_DURATION = 3600000%Z /\
  (forall env c s,
      (reads (trace (snd (handle_async parse env c s))) = S (reads (trace s)) <->
       cache s = None \/
       exists d, cache s = Some d /\ (now_check env - lastUpdated d > 3600000)%Z) /\
      (reads (trace (snd (handle_async parse env c s))) = reads (trace s) <->
       exists d, cache s = Some d /\ (now_check env - lastUpdated d <= 3600000)%Z) /\
      never_reads (fst (handle_async parse env c s))) /\
  (forall env c s d,
      cache s = Some d ->
      (now_check env - lastUpdated d <= 3600000)%Z ->
      snd (handle_async parse env c s) = s /\
      settles_with (fst (handle parse env c s)) (fst (handle_async parse env c s)) /\
      (c = CallGET ->
       fst (handle parse env c s) = Ok (mkResponse 200 (Columns (columnInfo d))))) /\
  (forall calls s d,
      cache s = Some d ->
      (forall env c, In (env, c) calls ->
                     (now_check env - lastUpdated d <= 3600000)%Z) ->
      cache (snd (in_turn parse calls s)) = Some d /\
      reads (trace (snd (in_turn parse calls s))) = reads (trace s) /\
      (forall i env,
          nth_error calls i = Some (env, CallGET) ->
          nth_error (fst (in_turn parse calls s)) i
          = Some (Ok (mkResponse 200 (Columns (columnInfo d)))))) /\
  (forall env0 c0 s d calls,
      refreshDue env0 (cache s) = true ->
      fst (loadAndProcessData parse env0 s) = Ok d ->
      (forall env c, In (env, c) calls ->
                     (now_check env - now_load env0 <= 3600000)%Z) ->
      cache (snd (in_turn parse ((env0, c0) :: calls) s)) = Some d /\
      reads (trace (snd (in_turn parse ((env0, c0) :: calls) s)))
      = S (reads (trace s))).
Proof.
  split; [reflexivity|]. split; [|split; [|split]].
  - intros env c s.
    destruct (reads_at_call_handle parse env c s) as [Hr Hn].
    split; [|split; [|assumption]]; rewrite Hr.
    + rewrite <- refreshDue_iff.
      destruct (refreshDue env (cache s)); split; intros H;
        try reflexivity; try discriminate; lia.
    + destruct (refreshDue env (cache s)) eqn:Hdue; split; intros H; try lia.
      * destruct H as (d & Hc & Hw). rewrite Hc in Hdue.
        unfold refreshDue, CACHE_DURATION in Hdue. apply Z.gtb_lt in Hdue. lia.
      * destruct (cache s) as [d|]; [|discriminate].
        exists d. split; [reflexivity|].
        unfold refreshDue, CACHE_DURATION in Hdue.
        rewrite Z.gtb_ltb in Hdue. apply Z.ltb_ge in Hdue. lia.
  - intros env c s d Hc Hw.
    destruct (handle_async_in_window parse env c s d Hc Hw) as [Hs Hsettles].
    split; [assumption|]. split; [assumption|].
    exact (proj2 (proj2 (proj2 (handle_in_window parse env c s d Hc Hw)))).
  - intros calls s d Hc Hw. rewrite in_turn_serve.
    now apply serve_in_window.
  - intros env0 c0 s d calls Hdue Hload Hw. rewrite in_turn_serve.
    rewrite loadAndProcessData_run in Hload. simpl in Hload.
    destruct (handle_state parse env0 c0 s) as [Hc Hr].
    rewrite getCachedData_reads, Hdue in Hr.
    rewrite getCachedData_run, Hdue, Hload in Hc. simpl in Hc.
    simpl serve. destruct (handle parse env0 c0 s) as [r s'] eqn:Hh.
    simpl in Hc, Hr.
    assert (Hw' : forall env c, In (env, c) calls ->
                                (now_check env - lastUpdated d <= 3600000)%Z).
    { intros env c Hin. rewrite (loadResult_stamp parse env0 d Hload). now apply (Hw env c). }
    destruct (serve_in_window parse calls s' d Hc Hw') as (Hc'' & Hr'' & _).
    destruct (serve parse calls s') as [rs s''] eqn:Hs. simpl in *.
    split; [assumption|]. lia.
Qed.

Lemma cache_refresh_policy_witness :
  cache (snd (in_turn demo_parse
                [(demo_env 1000, CallGET);
                 (demo_env 2000, CallGET);
                 (demo_env 3601005, CallPOST (mkRequest (Ok (JObj []))))]
                initial))
  = Some (demo_cache 1000) /\
  reads (trace (snd (in_turn demo_parse
                       [(demo_env 1000, CallGET);
                        (demo_env 2000, CallGET);
                        (demo_env 3601005, CallPOST (mkRequest (Ok (JObj []))))]
                       initial)))
  = S (reads (trace initial)).
Proof.
  apply (proj2 (proj2 (proj2 (proj2 (cache_refresh_policy demo_parse))))
           (demo_env 1000) CallGET initial (demo_cache 1000)
           [(demo_env 2000, CallGET);
            (demo_env 3601005, CallPOST (mkRequest (Ok (JObj []))))]).
  - reflexivity.
  - reflexivity.
  - intros env c [[= <- <-]|[[= <- <-]|[]]]; simpl; lia.
Defined.

(** Counterexample to C4 as the specification words it: two [GET]s on
    the empty cache, the second started one millisecond after the first,
    while the first awaits its file.  Both find no cache, both read the
    file, both answer 200, and the entry of the second replaces that of
    the first: two reads within the duration. *)
Lemma overlapping_calls_read_twice :
  (now_check (demo_env 1001) - now_check (demo_env 1000) <= 3600000)%Z /\
  reads (trace (sys (schedule demo_parse two_overlapping_gets (mkWorld initial []))))
  = 2%nat /\
  tasks (schedule demo_parse two_overlapping_gets (mkWorld initial []))
  = [Settled (Ok (mkResponse 200 (Columns (columnInfo (demo_cache 1000)))));
     Settled (Ok (mkResponse 200 (Columns (columnInfo (demo_cache 1001)))))] /\
  cache (sys (schedule demo_parse two_overlapping_gets (mkWorld initial [])))
  = Some (demo_cache 1001).
Proof.
  split; [simpl; lia|]. split; [reflexivity|]. split; reflexivity.
Qed.

(** ** The order of the options *)

Example Array_sort_by_code_units :
  Array_sort ["～"; "b"; "😀"; "B"; "é"; "a"; "ab"]
  = ["B"; "a"; "ab"; "b"; "é"; "😀"; "～"].
Proof. reflexivity. Qed.

Lemma js_le_code_unit_le a b : js_le a b -> code_unit_le a b.
Proof.
  unfold js_le, js_leb, js_compare, code_unit_le.
  destruct (list_compare N.compare (code_units a) (code_units b));
    intros H; discriminate.
Qed.

(** X20.  From a state the module can be in, when [getCachedData] resolves
    to the dataset [d], the options of every column that [GET] returns
    are in the order of the default [sort]: the UTF-16 code units of an
    option never come after those of an option further on. *)
Theorem GET_options_sorted parse env s d s1 :
  reachable parse s ->
  getCachedData parse env s = (Ok (Some d), s1) ->
  GET parse env s = (Ok (mkResponse 200 (Columns (columnInfo d))), s1) /\
  forall c, In c (columnInfo d) -> StronglySorted code_unit_le (options c).
Proof.
  intros Hreach Hget. split; [now apply GET_loaded|].
  destruct (served_cache_valid parse env s d s1 Hreach Hget)
    as (first & rest & Hrows & _ & Hcols).
  intros c Hin. rewrite Hcols, Hrows in Hin. simpl in Hin.
  apply in_map_iff in Hin. destruct Hin as (col & <- & _). simpl.
  pose proof (Array_sort_strongly_sorted (uniqueValues (first :: rest) col)) as Hs.
  induction Hs as [|a l Hs IH Hall]; constructor; [assumption|].
  eapply Forall_impl; [|exact Hall]. intros b. apply js_le_code_unit_le.
Qed.

Lemma GET_options_sorted_witness :
  GET demo_parse (demo_env 1000) initial
  = (Ok (mkResponse 200 (Columns (columnInfo (demo_cache 1000)))), demo_sys 1000) /\
  forall c, In c (columnInfo (demo_cache 1000)) ->
            StronglySorted code_unit_le (options c).
Proof.
  apply (GET_options_sorted demo_parse (demo_env 1000) initial
           (demo_cache 1000) (demo_sys 1000)).
  - apply reach_initial.
  - reflexivity.
Defined.
